(** * livecctv: the stream-lifecycle and fan-out engine of [server.js]

    A shallow embedding of the three in-memory maps of [server.js]
    ([cameras], [ffmpegProcesses], [streamClients]), of the route handlers
    that mutate them, of the hooks [startStream] registers on a spawned
    child process and of the WebSocket gateway.

    The handlers run to completion on Node's single event loop, so every
    handler is a function from the store to the store (and a response,
    for a route).  Child processes and WebSocket connections are JavaScript
    objects; they live in two heaps ([children], [sockets]) and are named
    by their index, a handle being allocated at the end of its heap. *)

From stdpp Require Import gmap strings list fin_maps.

Open Scope string_scope.

(** ** Data model *)

(** [status: 'offline' | 'live'] *)
Inductive status := Offline | Live.

#[global] Instance status_eq_dec : EqDecision status.
Proof. solve_decision. Defined.

(** The object literal built by [POST /api/cameras]. *)
Record camera := Camera {
  cam_id : string;
  cam_name : string;
  cam_rtspUrl : string;
  cam_status : status;
  cam_streamUrl : string;
  cam_createdAt : string
}.

#[global] Instance camera_eq_dec : EqDecision camera.
Proof. solve_decision. Defined.

(** [camera.status = v], the in-place update of a record. *)
Definition set_status (v : status) (c : camera) : camera :=
  {| cam_id := cam_id c; cam_name := cam_name c; cam_rtspUrl := cam_rtspUrl c;
     cam_status := v; cam_streamUrl := cam_streamUrl c;
     cam_createdAt := cam_createdAt c |}.

(** A chunk of the child's standard output (a [Buffer]). *)
Definition chunk := list Byte.byte.

(** Handles: indices into the two heaps. *)
Abbreviation pid := nat (only parsing).
Abbreviation wsid := nat (only parsing).

(** A [ChildProcess] object.  [proc_camera] is the [cameraId] that
    [startStream] was called with, which the closures it registers on the
    child capture; [proc_args] is the argument vector given to [spawn],
    [proc_signals] the signals [kill] has sent to the child.  Two fields are
    decided by the operating system, not by the server.  [proc_failed]: the
    program could not be executed, which the child reports through its
    ['error'] event.  [proc_stdio]: [spawn] gave the child its [stdout] and
    [stderr] streams; [startStream] registers its hooks on such a child only,
    since [ffmpeg.stdout.on] raises on a child that has none. *)
Record child := Child {
  proc_camera : string;
  proc_args : list string;
  proc_signals : list string;
  proc_failed : bool;
  proc_stdio : bool
}.

(** [readyState] of a WebSocket, with the numbers of the [ws] library. *)
Inductive ready_state := CONNECTING | OPEN | CLOSING | CLOSED.

#[global] Instance ready_state_eq_dec : EqDecision ready_state.
Proof. solve_decision. Defined.

Definition ready_code (r : ready_state) : nat :=
  match r with CONNECTING => 0 | OPEN => 1 | CLOSING => 2 | CLOSED => 3 end.

(** A WebSocket connection.  [sock_camera] is [Some cameraId] once the
    gateway has registered its ['close'] hook (which captures [cameraId]);
    [sock_inbox] the chunks [send] has pushed to the peer, oldest first. *)
Record socket := Socket {
  sock_camera : option string;
  readyState : ready_state;
  sock_inbox : list chunk
}.

(** The store: the three [Map]s of the module and the two heaps.  A
    JavaScript [Set] of connections is the list of its members in insertion
    order, without repetition. *)
Record state := State {
  cameras : gmap string camera;
  ffmpegProcesses : gmap string pid;
  streamClients : gmap string (list wsid);
  children : list child;
  sockets : list socket
}.

Definition init : state :=
  {| cameras := ∅; ffmpegProcesses := ∅; streamClients := ∅;
     children := []; sockets := [] |}.

Definition with_cameras (m : gmap string camera) (s : state) : state :=
  {| cameras := m; ffmpegProcesses := ffmpegProcesses s;
     streamClients := streamClients s; children := children s;
     sockets := sockets s |}.

Definition with_ffmpegProcesses (m : gmap string pid) (s : state) : state :=
  {| cameras := cameras s; ffmpegProcesses := m;
     streamClients := streamClients s; children := children s;
     sockets := sockets s |}.

Definition with_streamClients (m : gmap string (list wsid)) (s : state) : state :=
  {| cameras := cameras s; ffmpegProcesses := ffmpegProcesses s;
     streamClients := m; children := children s; sockets := sockets s |}.

Definition with_children (l : list child) (s : state) : state :=
  {| cameras := cameras s; ffmpegProcesses := ffmpegProcesses s;
     streamClients := streamClients s; children := l; sockets := sockets s |}.

Definition with_sockets (l : list socket) (s : state) : state :=
  {| cameras := cameras s; ffmpegProcesses := ffmpegProcesses s;
     streamClients := streamClients s; children := children s; sockets := l |}.

(** ** Responses of the routes *)

Inductive body :=
  | JError (error : string) (details : option string)
  | JCamera (c : camera)
  | JMessage (message : string) (c : option camera).

Record response := Response { code : nat; json : body }.

(** The outcomes the specification names, as the responses that carry them. *)
Definition InvalidInput : response :=
  {| code := 400; json := JError "Name and RTSP URL are required" None |}.
Definition NotFound : response :=
  {| code := 404; json := JError "Camera not found" None |}.
Definition AlreadyRunning : response :=
  {| code := 400; json := JError "Stream already active" None |}.
Definition NotRunning : response :=
  {| code := 400; json := JError "Stream not active" None |}.
Definition StartFailure (details : string) : response :=
  {| code := 500; json := JError "Failed to start stream" (Some details) |}.

(** ** Operations on connections and processes *)

Module Ws.

(** [ws.close()]: an open connection starts its closing handshake; the
    ['close'] event comes later, from the event loop. *)
Definition close_socket (c : socket) : socket :=
  match readyState c with
  | OPEN => {| sock_camera := sock_camera c; readyState := CLOSING;
               sock_inbox := sock_inbox c |}
  | _ => c
  end.

Definition close (w : wsid) (ss : list socket) : list socket :=
  alter close_socket w ss.

(** [ws.send(data)] *)
Definition send_socket (data : chunk) (c : socket) : socket :=
  {| sock_camera := sock_camera c; readyState := readyState c;
     sock_inbox := sock_inbox c ++ [data] |}.

Definition send (data : chunk) (w : wsid) (ss : list socket) : list socket :=
  alter (send_socket data) w ss.

(** [clients.add(ws)] and [clients.delete(ws)] on a [Set]. *)
Definition add (w : wsid) (clients : list wsid) : list wsid :=
  if decide (w ∈ clients) then clients else clients ++ [w].

Definition delete (w : wsid) (clients : list wsid) : list wsid :=
  filter (λ x, x ≠ w) clients.

End Ws.

(** [ffmpeg.kill(signal)] *)
Definition kill_child (signal : string) (c : child) : child :=
  {| proc_camera := proc_camera c; proc_args := proc_args c;
     proc_signals := proc_signals c ++ [signal]; proc_failed := proc_failed c;
     proc_stdio := proc_stdio c |}.

Definition kill (p : pid) (signal : string) (cs : list child) : list child :=
  alter (kill_child signal) p cs.

(** [clients.forEach(client => client.close())] *)
Definition close_all (clients : list wsid) (ss : list socket) : list socket :=
  foldl (λ ss client, Ws.close client ss) ss clients.

(** ** [startStream] and the hooks it registers *)

(** What [spawn('ffmpeg', ...)] does is decided outside the server: the
    program runs; or [spawn] returns a handle and the child reports through
    its ['error'] event that the program could not be executed; or [spawn]
    itself raises an exception; or [spawn] returns a handle that has no
    [stdout] (the pipes of the child could not be made), on which
    [ffmpeg.stdout.on] raises the [TypeError] whose message is [message]. *)
Inductive spawn_outcome :=
  | Spawned
  | SpawnErrorEvent
  | SpawnThrows (message : string)
  | SpawnNoStdio (message : string).

(** The outcomes in which no conversion process comes to run. *)
Definition cannot_spawn (o : spawn_outcome) : Prop := o ≠ Spawned.

#[global] Instance spawn_outcome_eq_dec : EqDecision spawn_outcome.
Proof. solve_decision. Defined.

Definition ffmpeg_args (rtspUrl : string) : list string :=
  ["-rtsp_transport"; "tcp"; "-i"; rtspUrl; "-f"; "mjpeg"; "-q:v"; "5";
   "-r"; "15"; "-vf"; "scale=1280:720"; "-"].

(** The handle that [spawn] returns for [cameraId]. *)
Definition spawned_child (cameraId rtspUrl : string) (o : spawn_outcome) : child :=
  {| proc_camera := cameraId; proc_args := ffmpeg_args rtspUrl;
     proc_signals := [];
     proc_failed := bool_decide (o = SpawnErrorEvent);
     proc_stdio := match o with SpawnNoStdio _ => false | _ => true end |}.

(** [function startStream(cameraId, rtspUrl)]: the store it leaves and, when
    it raises, the message of the exception.  An exception of [spawn] leaves
    the function before any of its statements has run.  Otherwise the new
    handle is stored under [cameraId], and a NEW empty [Set] is stored under
    [cameraId] in [streamClients], whatever was there; only then are the
    hooks registered, starting with [ffmpeg.stdout.on], which raises on a
    handle without [stdout]: the two maps keep what was stored and no hook
    is registered. *)
Definition startStream (cameraId rtspUrl : string) (o : spawn_outcome)
    (s : state) : state * option string :=
  match o with
  | SpawnThrows message => (s, Some message)
  | _ =>
    let ffmpeg : pid := length (children s) in
    let s1 :=
      with_streamClients (<[cameraId := []]> (streamClients s))
        (with_ffmpegProcesses (<[cameraId := ffmpeg]> (ffmpegProcesses s))
          (with_children (children s ++ [spawned_child cameraId rtspUrl o]) s)) in
    match o with
    | SpawnNoStdio message => (s1, Some message)
    | _ => (s1, None)
    end
  end.

(** The body of [clients.forEach] in the ['data'] hook:
    [if (client.readyState === 1) client.send(data)]. *)
Definition send_if_open (data : chunk) (ss : list socket) (client : wsid)
    : list socket :=
  match ss !! client with
  | Some c => if Nat.eqb (ready_code (readyState c)) 1 then Ws.send data client ss else ss
  | None => ss
  end.

(** [ffmpeg.stdout.on('data', ...)], with the [cameraId] of its closure. *)
Definition on_stdout_data (cameraId : string) (data : chunk) (s : state) : state :=
  match streamClients s !! cameraId with
  | Some clients => with_sockets (foldl (send_if_open data) (sockets s) clients) s
  | None => s
  end.

(** [clients.forEach(client => client.close()); streamClients.delete(cameraId)],
    the block shared by the ['close'] hook and [stopStream]. *)
Definition close_clients (cameraId : string) (s : state) : state :=
  match streamClients s !! cameraId with
  | Some clients =>
    with_streamClients (delete cameraId (streamClients s))
      (with_sockets (close_all clients (sockets s)) s)
  | None => s
  end.

(** [ffmpeg.on('close', ...)], with the [cameraId] of its closure. *)
Definition on_close (cameraId : string) (s : state) : state :=
  let s1 := with_ffmpegProcesses (delete cameraId (ffmpegProcesses s)) s in
  let s2 :=
    match cameras s1 !! cameraId with
    | Some camera => with_cameras (<[cameraId := set_status Offline camera]> (cameras s1)) s1
    | None => s1
    end in
  close_clients cameraId s2.

(** [ffmpeg.on('error', ...)] and [ffmpeg.stderr.on('data', ...)] write to
    the console only. *)
Definition on_error (cameraId : string) (s : state) : state := s.
Definition on_stderr_data (cameraId : string) (data : chunk) (s : state) : state := s.

(** [function stopStream(cameraId)] *)
Definition stopStream (cameraId : string) (s : state) : state :=
  let s1 :=
    match ffmpegProcesses s !! cameraId with
    | Some ffmpeg =>
      with_ffmpegProcesses (delete cameraId (ffmpegProcesses s))
        (with_children (kill ffmpeg "SIGTERM" (children s)) s)
    | None => s
    end in
  close_clients cameraId s1.

(** ** The shutdown *)

(** [stopStream] on each identifier of a list, in turn. *)
Definition stop_all (cameraIds : list string) (s : state) : state :=
  foldl (λ s cameraId, stopStream cameraId s) s cameraIds.

(** The first statement of [gracefulShutdown]:
    [ffmpegProcesses.forEach((ffmpeg, cameraId) => { stopStream(cameraId) })].
    Each key of the map is visited once ([stopStream] deletes no other
    key); the order of the visits is that of insertion, which the store does
    not keep.  What follows in [gracefulShutdown] closes the two servers and
    leaves the three maps alone; requests and events that are in flight are
    still served after it. *)
Definition shutdown_streams (s : state) : state :=
  stop_all (map_to_list (ffmpegProcesses s)).*1 s.

(** ** The routes *)

(** A field of the request body: absent, or a string.  [falsy] is [!v]. *)
Definition falsy (v : option string) : bool :=
  match v with
  | None => true
  | Some x => bool_decide (x = "")
  end.

(** [`/live/${id}`] *)
Definition viewerPath (id : string) : string := "/live/" ++ id.

(** [app.post('/api/cameras', ...)].  [uuid] is what [uuidv4()] returns and
    [now] what [new Date().toISOString()] returns. *)
Definition api_create (name rtspUrl : option string) (uuid now : string)
    (s : state) : state * response :=
  if falsy name || falsy rtspUrl then (s, InvalidInput)
  else
    let camera := {| cam_id := uuid; cam_name := default "" name;
                     cam_rtspUrl := default "" rtspUrl; cam_status := Offline;
                     cam_streamUrl := viewerPath uuid; cam_createdAt := now |} in
    (with_cameras (<[uuid := camera]> (cameras s)) s,
     {| code := 201; json := JCamera camera |}).

(** [app.delete('/api/cameras/:id', ...)] *)
Definition api_delete (id : string) (s : state) : state * response :=
  match cameras s !! id with
  | None => (s, NotFound)
  | Some _ =>
    let s1 := if decide (is_Some (ffmpegProcesses s !! id)) then stopStream id s else s in
    (with_cameras (delete id (cameras s1)) s1,
     {| code := 200; json := JMessage "Camera deleted successfully" None |})
  end.

(** [app.post('/api/cameras/:id/start', ...)].  The [catch] answers 500 from
    the store that [startStream] left when it raised. *)
Definition api_start (id : string) (o : spawn_outcome) (s : state)
    : state * response :=
  match cameras s !! id with
  | None => (s, NotFound)
  | Some camera =>
    if decide (is_Some (ffmpegProcesses s !! id)) then (s, AlreadyRunning)
    else
      match startStream id (cam_rtspUrl camera) o s with
      | (s1, None) =>
        let camera' := set_status Live camera in
        (with_cameras (<[id := camera']> (cameras s1)) s1,
         {| code := 200; json := JMessage "Stream started successfully" (Some camera') |})
      | (s1, Some message) => (s1, StartFailure message)
      end
  end.

(** [app.post('/api/cameras/:id/stop', ...)].  The camera is read again
    after [stopStream]; were it gone, [camera.status = ...] would raise and
    Express would answer 500 (the last branch, which [stopStream] never
    reaches since it leaves [cameras] alone). *)
Definition api_stop (id : string) (s : state) : state * response :=
  match cameras s !! id with
  | None => (s, NotFound)
  | Some _ =>
    if decide (is_Some (ffmpegProcesses s !! id)) then
      let s1 := stopStream id s in
      match cameras s1 !! id with
      | Some camera =>
        let camera' := set_status Offline camera in
        (with_cameras (<[id := camera']> (cameras s1)) s1,
         {| code := 200; json := JMessage "Stream stopped successfully" (Some camera') |})
      | None => (s1, {| code := 500; json := JError "TypeError" None |})
      end
    else (s, NotRunning)
  end.

(** ** The WebSocket gateway *)

(** What [new URL(req.url, ...)] does with the target of the request is
    decided by the URL parser: it raises (on a target such as [//]), or it
    returns a URL whose [cameraId] query parameter is [cameraId] ([None]
    when the parameter is absent). *)
Inductive url_outcome :=
  | UrlRaises
  | UrlParsed (cameraId : option string).

(** [wss.on('connection', ...)]: the new connection [ws] is allocated open.
    When the first statement raises, the handler is left at once: the
    connection is neither closed nor registered, and has no hook. *)
Definition wss_connection (u : url_outcome) (s : state) : state :=
  let ws : wsid := length (sockets s) in
  let fresh := {| sock_camera := None; readyState := OPEN; sock_inbox := [] |} in
  let s0 := with_sockets (sockets s ++ [fresh]) s in
  match u with
  | UrlRaises => s0
  | UrlParsed cameraId =>
    if falsy cameraId || bool_decide (cameras s !! default "" cameraId = None) then
      with_sockets (Ws.close ws (sockets s0)) s0
    else
      let cameraId := default "" cameraId in
      let s1 :=
        match streamClients s0 !! cameraId with
        | None => with_streamClients (<[cameraId := []]> (streamClients s0)) s0
        | Some _ => s0
        end in
      let s2 := with_streamClients
                  (alter (Ws.add ws) cameraId (streamClients s1)) s1 in
      with_sockets
        (alter (λ c, {| sock_camera := Some cameraId; readyState := readyState c;
                        sock_inbox := sock_inbox c |}) ws (sockets s2)) s2
  end.

(** [ws.on('close', ...)], with the [cameraId] and [ws] of its closure. *)
Definition ws_on_close (cameraId : string) (ws : wsid) (s : state) : state :=
  match streamClients s !! cameraId with
  | Some clients =>
    with_streamClients (<[cameraId := Ws.delete ws clients]> (streamClients s)) s
  | None => s
  end.

(** ** The event loop *)

(** What the environment delivers to the server: requests on the routes,
    events of a child process, events of a connection.  [ProcError] and
    [ProcStderr] only reach hooks that write to the console.
    [WsPeerClosing]: the peer starts the closing handshake, so the
    connection stops being open before its ['close'] event is delivered.
    [Shutdown]: a SIGTERM or SIGINT reaches the server, which runs
    [gracefulShutdown].
    An event may name a handle that was never allocated (the dispatch then
    finds no hook) and a ['close'] may come more than once: the traces of
    the model include those of the runtime. *)
Inductive event :=
  | ReqCreate (name rtspUrl : option string) (uuid now : string)
  | ReqDelete (id : string)
  | ReqStart (id : string) (o : spawn_outcome)
  | ReqStop (id : string)
  | ProcData (p : pid) (data : chunk)
  | ProcStderr (p : pid) (data : chunk)
  | ProcError (p : pid)
  | ProcClose (p : pid)
  | WsConnect (u : url_outcome)
  | WsPeerClosing (w : wsid)
  | WsClose (w : wsid)
  | WsError (w : wsid)
  | Shutdown.

(** Run the hook of child [p], if [startStream] registered its hooks on
    [p]: it does so on a child that has its stdio. *)
Definition with_child (p : pid) (hook : string → state → state) (s : state) : state :=
  match children s !! p with
  | Some c => if proc_stdio c then hook (proc_camera c) s else s
  | None => s
  end.

Definition set_readyState (r : ready_state) (c : socket) : socket :=
  {| sock_camera := sock_camera c; readyState := r; sock_inbox := sock_inbox c |}.

(** The connection [w] is closed, then its ['close'] hook runs, if the
    gateway registered one. *)
Definition ws_closed (w : wsid) (s : state) : state :=
  match sockets s !! w with
  | Some c =>
    let s1 := with_sockets (alter (set_readyState CLOSED) w (sockets s)) s in
    match sock_camera c with
    | Some cameraId => ws_on_close cameraId w s1
    | None => s1
    end
  | None => s
  end.

Definition handle (e : event) (s : state) : state * option response :=
  match e with
  | ReqCreate name rtspUrl uuid now => prod_map id Some (api_create name rtspUrl uuid now s)
  | ReqDelete i => prod_map id Some (api_delete i s)
  | ReqStart i o => prod_map id Some (api_start i o s)
  | ReqStop i => prod_map id Some (api_stop i s)
  | ProcData p data => (with_child p (λ cameraId, on_stdout_data cameraId data) s, None)
  | ProcStderr p data => (with_child p (λ cameraId, on_stderr_data cameraId data) s, None)
  | ProcError p => (with_child p on_error s, None)
  | ProcClose p => (with_child p on_close s, None)
  | WsConnect u => (wss_connection u s, None)
  | WsPeerClosing w => (with_sockets (Ws.close w (sockets s)) s, None)
  | WsClose w => (ws_closed w s, None)
  | WsError w => (s, None)
  | Shutdown => (shutdown_streams s, None)
  end.

Definition step (s : state) (e : event) : state := (handle e s).1.

Definition run (es : list event) (s : state) : state := foldl step s es.

(** The contract of [uuidv4]: the identifier it returns is not the key of a
    camera of the registry.  Nothing else is asked of the environment. *)
Definition env_ok (s : state) (e : event) : Prop :=
  match e with
  | ReqCreate _ _ uuid _ => cameras s !! uuid = None
  | _ => True
  end.

#[global] Instance env_ok_dec s e : Decision (env_ok s e).
Proof. destruct e; simpl; apply _. Defined.

(** The stores the server can be in. *)
Inductive reachable : state → Prop :=
  | reachable_init : reachable init
  | reachable_step s e : reachable s → env_ok s e → reachable (step s e).

(** Every [uuid] of a trace is new to the registry when it is drawn. *)
Fixpoint trace_ok (s : state) (es : list event) : Prop :=
  match es with
  | [] => True
  | e :: es' => env_ok s e ∧ trace_ok (step s e) es'
  end.

#[global] Instance trace_ok_dec s es : Decision (trace_ok s es).
Proof. revert s. induction es as [|e es IH]; intros s; simpl; apply _. Defined.

(** The events after which the registry and the process map agree: all but
    a start whose [spawn] returns a handle without stdio, and the shutdown. *)
Definition calm (e : event) : Prop :=
  match e with
  | ReqStart _ (SpawnNoStdio _) => False
  | Shutdown => False
  | _ => True
  end.

#[global] Instance calm_dec e : Decision (calm e).
Proof. destruct e as [| |? []| | | | | | | | | |]; simpl; apply _. Defined.

(** ** Notions used in the statements *)

(** The [Set] stored for a camera, empty when the map has none. *)
Definition subscribers (s : state) (cameraId : string) : list wsid :=
  default [] (streamClients s !! cameraId).

(** What a broadcast of [data] to [clients] does to connection [w]. *)
Definition deliver (data : chunk) (clients : list wsid) (w : wsid) (c : socket)
    : socket :=
  if decide (w ∈ clients ∧ readyState c = OPEN) then Ws.send_socket data c else c.

(** Every camera is stored under its own identifier and is [Live] exactly
    when the process map has an entry for it; the process map has no entry
    for an identifier that is not a camera's. *)
Definition consistent (cs : gmap string camera) (ps : gmap string pid) : Prop :=
  ∀ i, match cs !! i with
       | Some c => cam_id c = i ∧ (cam_status c = Live ↔ is_Some (ps !! i))
       | None => ps !! i = None
       end.

(** Every stored [Set] lists each of its members once. *)
Definition sets_ok (m : gmap string (list wsid)) : Prop :=
  map_Forall (λ _ clients, NoDup clients) m.

(** ** Scenarios *)

(** Two chunks: the markers that open and close a JPEG image. *)
Definition soi : chunk := [Byte.xff; Byte.xd8].
Definition eoi : chunk := [Byte.xff; Byte.xd9].

(** Camera A, as the registry holds it. *)
Definition door (st : status) : camera :=
  {| cam_id := "A"; cam_name := "Door"; cam_rtspUrl := "rtsp://x";
     cam_status := st; cam_streamUrl := "/live/A"; cam_createdAt := "t0" |}.

(** A day in the life of the server: camera A is created, a viewer connects
    early, A is started, a second viewer connects, two chunks arrive; camera
    B is created and started, and its process dies. *)
Definition demo : list event :=
  [ ReqCreate (Some "Door") (Some "rtsp://x") "A" "t0";
    WsConnect (UrlParsed (Some "A"));
    ReqStart "A" Spawned;
    WsConnect (UrlParsed (Some "A"));
    ProcData 0 soi;
    ProcData 0 eoi;
    ReqCreate (Some "Yard") (Some "rtsp://y") "B" "t1";
    ReqStart "B" Spawned;
    ProcClose 1 ].

(** A started camera with two viewers, the first of which is closing. *)
Definition one_closing : list event :=
  [ ReqCreate (Some "Door") (Some "rtsp://x") "A" "t0";
    ReqStart "A" Spawned;
    WsConnect (UrlParsed (Some "A"));
    WsConnect (UrlParsed (Some "A"));
    WsPeerClosing 0 ].

(** Camera A is live and has one viewer. *)
Definition live_with_viewer : list event :=
  [ ReqCreate (Some "Door") (Some "rtsp://x") "A" "t0";
    ReqStart "A" Spawned;
    WsConnect (UrlParsed (Some "A")) ].

(** Camera A is offline and has one viewer waiting. *)
Definition idle_with_viewer : list event :=
  [ ReqCreate (Some "Door") (Some "rtsp://x") "A" "t0";
    WsConnect (UrlParsed (Some "A")) ].

(** ** The other routes *)

(** [app.get('/api/cameras', ...)]: [Array.from(cameras.values())].  The
    response lists the records in the order of their insertion, which the
    store does not keep: the list is meant up to its order. *)
Definition api_list (s : state) : list camera := (map_to_list (cameras s)).*2.

(** [app.get('/health', ...)] *)
Record health := Health {
  health_status : string;
  health_cameras : nat;
  health_activeStreams : nat
}.

Definition api_health (s : state) : health :=
  {| health_status := "ok"; health_cameras := size (cameras s);
     health_activeStreams := size (ffmpegProcesses s) |}.

(** ** Further notions *)

(** The cameras of the registry whose status is [Live]. *)
Definition live_cameras (s : state) : gmap string camera :=
  filter (λ kc, cam_status kc.2 = Live) (cameras s).

(** Every entry of the process map names a child that [startStream] spawned
    for that camera, reading from the camera's address, to which no signal
    has been sent. *)
Definition entries_ok (s : state) : Prop :=
  ∀ i p, ffmpegProcesses s !! i = Some p →
    ∃ ch c, children s !! p = Some ch ∧ proc_camera ch = i ∧
            proc_signals ch = [] ∧
            cameras s !! i = Some c ∧
            proc_args ch = ffmpeg_args (cam_rtspUrl c).

(** No child has been sent anything but one SIGTERM. *)
Definition signals_ok (s : state) : Prop :=
  ∀ p ch, children s !! p = Some ch →
    proc_signals ch = [] ∨ proc_signals ch = ["SIGTERM"].

(** Every member of a subscriber set is a connection that the gateway
    registered for that camera and whose ['close'] event has not come. *)
Definition members_ok (s : state) : Prop :=
  ∀ i w, w ∈ subscribers s i →
    ∃ c, sockets s !! w = Some c ∧ sock_camera c = Some i ∧ readyState c ≠ CLOSED.

(** How a connection can change: its hook stays, its inbox grows at the
    end, and once it is not open it never is again and receives nothing. *)
Definition socket_evolves (c c' : socket) : Prop :=
  sock_camera c' = sock_camera c ∧
  sock_inbox c `prefix_of` sock_inbox c' ∧
  (readyState c ≠ OPEN → readyState c' ≠ OPEN ∧ sock_inbox c' = sock_inbox c).

(** The message of the [TypeError] that [ffmpeg.stdout.on] raises on a
    handle without [stdout]. *)
Definition no_stdout : string :=
  "Cannot read properties of undefined (reading 'on')".

(** Camera A is created; its start finds the pipes of the child missing. *)
Definition start_without_stdio : list event :=
  [ ReqCreate (Some "Door") (Some "rtsp://x") "A" "t0";
    ReqStart "A" (SpawnNoStdio no_stdout) ].

(** Camera A is stopped and started again before the ['close'] event of its
    first process is delivered. *)
Definition restart_before_close : list event :=
  [ ReqCreate (Some "Door") (Some "rtsp://x") "A" "t0";
    ReqStart "A" Spawned;
    ReqStop "A";
    ReqStart "A" Spawned ].

(** ** Five claims as the specification words them

    The code does not meet them; each is refuted below, next to the
    statement that holds of the code. *)


(** The claim C2 as it is written: whenever no conversion process comes to
    run, start answers StartFailure, the process map has no entry for the
    camera and its status is OFFLINE. *)
Definition spawn_failure_is_reported : Prop :=
  ∀ (s : state) (i : string) (c : camera) (o : spawn_outcome),
    reachable s →
    cameras s !! i = Some c →
    ffmpegProcesses s !! i = None →
    cannot_spawn o →
    (∃ details, (api_start i o s).2 = StartFailure details) ∧
    ffmpegProcesses (api_start i o s).1 !! i = None ∧
    (cam_status <$> cameras (api_start i o s).1 !! i) = Some Offline.

(** The claim C3 as it is written: stop changes neither the registry, nor
    the process map, nor the subscriber sets. *)
Definition stop_only_signals : Prop :=
  ∀ (s : state) (i : string) (c : camera) (p : pid),
    cameras s !! i = Some c →
    ffmpegProcesses s !! i = Some p →
    cameras (api_stop i s).1 = cameras s ∧
    ffmpegProcesses (api_stop i s).1 = ffmpegProcesses s ∧
    streamClients (api_stop i s).1 = streamClients s.

(** The claim C5 as it is written: after delete, no connection that was in
    the camera's subscriber set is registered or open. *)
Definition delete_closes_all : Prop :=
  ∀ (s : state) (i : string) (c : camera) (w : wsid),
    cameras s !! i = Some c →
    w ∈ subscribers s i →
    (w ∉ subscribers (api_delete i s).1 i) ∧
    (∀ k, sockets (api_delete i s).1 !! w = Some k → readyState k ≠ OPEN).

(** The claim C9 as it is written: a member of the set that is not open
    when a chunk is broadcast is no longer a member afterwards. *)
Definition broadcast_prunes : Prop :=
  ∀ (s : state) (cameraId : string) (data : chunk) (w : wsid) (c : socket),
    w ∈ subscribers s cameraId →
    sockets s !! w = Some c →
    readyState c ≠ OPEN →
    w ∉ subscribers (on_stdout_data cameraId data s) cameraId.

(** ** Projections of the handlers on the registry and the process map *)

(** A process event runs a hook only if its handle has been allocated and
    has its stdio: [ch] is then the child. *)
Ltac hook_of_child :=
  unfold with_child;
  match goal with
  | |- context [children ?s !! ?p] =>
    let Hch := fresh "Hch" in
    let Hio := fresh "Hio" in
    destruct (children s !! p) as [ch|] eqn:Hch;
      [destruct (proc_stdio ch) eqn:Hio; [|done]|done]
  end.

Section Frames.
Implicit Types (s : state) (cameraId : string).

Lemma close_clients_cameras cameraId s :
  cameras (close_clients cameraId s) = cameras s.
Proof. unfold close_clients. by destruct (streamClients s !! cameraId). Qed.

Lemma close_clients_ffmpegProcesses cameraId s :
  ffmpegProcesses (close_clients cameraId s) = ffmpegProcesses s.
Proof. unfold close_clients. by destruct (streamClients s !! cameraId). Qed.

Lemma close_clients_children cameraId s :
  children (close_clients cameraId s) = children s.
Proof. unfold close_clients. by destruct (streamClients s !! cameraId). Qed.

Lemma close_clients_streamClients cameraId s :
  streamClients (close_clients cameraId s) = delete cameraId (streamClients s).
Proof.
  unfold close_clients.
  destruct (streamClients s !! cameraId) eqn:E; [done|].
  by rewrite delete_id.
Qed.

Lemma stopStream_cameras cameraId s :
  cameras (stopStream cameraId s) = cameras s.
Proof.
  unfold stopStream. rewrite close_clients_cameras.
  by destruct (ffmpegProcesses s !! cameraId).
Qed.

Lemma stopStream_ffmpegProcesses cameraId s :
  ffmpegProcesses (stopStream cameraId s) = delete cameraId (ffmpegProcesses s).
Proof.
  unfold stopStream. rewrite close_clients_ffmpegProcesses.
  destruct (ffmpegProcesses s !! cameraId) eqn:E; [done|].
  by rewrite delete_id.
Qed.

Lemma stopStream_streamClients cameraId s :
  streamClients (stopStream cameraId s) = delete cameraId (streamClients s).
Proof.
  unfold stopStream. rewrite close_clients_streamClients.
  by destruct (ffmpegProcesses s !! cameraId).
Qed.

Lemma on_close_ffmpegProcesses cameraId s :
  ffmpegProcesses (on_close cameraId s) = delete cameraId (ffmpegProcesses s).
Proof.
  unfold on_close. rewrite close_clients_ffmpegProcesses. simpl.
  by destruct (cameras s !! cameraId).
Qed.

Lemma on_close_cameras cameraId s :
  cameras (on_close cameraId s) =
    match cameras s !! cameraId with
    | Some camera => <[cameraId := set_status Offline camera]> (cameras s)
    | None => cameras s
    end.
Proof.
  unfold on_close. rewrite close_clients_cameras. simpl.
  by destruct (cameras s !! cameraId).
Qed.

Lemma on_stdout_data_cameras cameraId data s :
  cameras (on_stdout_data cameraId data s) = cameras s.
Proof. unfold on_stdout_data. by destruct (streamClients s !! cameraId). Qed.

Lemma on_stdout_data_ffmpegProcesses cameraId data s :
  ffmpegProcesses (on_stdout_data cameraId data s) = ffmpegProcesses s.
Proof. unfold on_stdout_data. by destruct (streamClients s !! cameraId). Qed.

Lemma wss_connection_cameras u s : cameras (wss_connection u s) = cameras s.
Proof.
  unfold wss_connection. destruct u as [|o]; [done|]. case_match; [done|]. simpl.
  by destruct (streamClients s !! default "" o).
Qed.

Lemma wss_connection_ffmpegProcesses u s :
  ffmpegProcesses (wss_connection u s) = ffmpegProcesses s.
Proof.
  unfold wss_connection. destruct u as [|o]; [done|]. case_match; [done|]. simpl.
  by destruct (streamClients s !! default "" o).
Qed.

Lemma ws_closed_cameras w s : cameras (ws_closed w s) = cameras s.
Proof.
  unfold ws_closed, ws_on_close. repeat case_match; done.
Qed.

Lemma ws_closed_ffmpegProcesses w s :
  ffmpegProcesses (ws_closed w s) = ffmpegProcesses s.
Proof.
  unfold ws_closed, ws_on_close. repeat case_match; done.
Qed.

Lemma on_close_children i s : children (on_close i s) = children s.
Proof.
  unfold on_close. rewrite close_clients_children. simpl.
  by destruct (cameras s !! i).
Qed.

Lemma stopStream_children_idle i s :
  ffmpegProcesses s !! i = None → children (stopStream i s) = children s.
Proof.
  intros Hp. unfold stopStream. rewrite close_clients_children. by rewrite Hp.
Qed.

Lemma on_stdout_data_children i data s :
  children (on_stdout_data i data s) = children s.
Proof. unfold on_stdout_data. by destruct (streamClients s !! i). Qed.

Lemma wss_connection_children u s : children (wss_connection u s) = children s.
Proof.
  unfold wss_connection. destruct u as [|o]; [done|]. case_match; [done|]. simpl.
  by destruct (streamClients s !! default "" o).
Qed.

Lemma ws_closed_children w s : children (ws_closed w s) = children s.
Proof. unfold ws_closed, ws_on_close. repeat case_match; done. Qed.

Lemma on_close_streamClients (i : string) (s : state) :
  streamClients (on_close i s) = delete i (streamClients s).
Proof.
  unfold on_close. rewrite close_clients_streamClients. simpl.
  by destruct (cameras s !! i).
Qed.

Lemma on_stdout_data_streamClients (i : string) (data : chunk) (s : state) :
  streamClients (on_stdout_data i data s) = streamClients s.
Proof. unfold on_stdout_data. by destruct (streamClients s !! i). Qed.

End Frames.

(** ** The registry and the process map agree *)

Lemma consistent_empty : consistent ∅ ∅.
Proof. intros i. by rewrite !lookup_empty. Qed.

(** A new [Offline] camera under a key the registry does not have. *)
Lemma consistent_create cs ps uuid c :
  consistent cs ps → cs !! uuid = None →
  cam_id c = uuid → cam_status c = Offline →
  consistent (<[uuid := c]> cs) ps.
Proof.
  intros H Hnew Hid Hst i. specialize (H i).
  rewrite lookup_insert. case_decide as E; [subst i|done].
  rewrite Hnew in H. rewrite H, Hst. split; [done|].
  split; [done|]. by intros [? ?].
Qed.

(** The teardown of an entry, with or without the camera. *)
Lemma consistent_offline cs ps i c :
  consistent cs ps → cs !! i = Some c →
  consistent (<[i := set_status Offline c]> cs) (delete i ps).
Proof.
  intros H Hc j. specialize (H j).
  rewrite lookup_insert, lookup_delete. case_decide as E.
  - subst j. rewrite Hc in H. simpl. split; [tauto|].
    split; [done|]. by intros [? ?].
  - done.
Qed.

Lemma consistent_delete cs ps i :
  consistent cs ps → consistent (delete i cs) (delete i ps).
Proof.
  intros H j. specialize (H j).
  rewrite !lookup_delete. by case_decide.
Qed.

Lemma consistent_delete_absent cs ps i :
  consistent cs ps → cs !! i = None → consistent cs (delete i ps).
Proof.
  intros H Hc. rewrite delete_id; [done|].
  specialize (H i). by rewrite Hc in H.
Qed.

Lemma consistent_live cs ps i c p :
  consistent cs ps → cs !! i = Some c →
  consistent (<[i := set_status Live c]> cs) (<[i := p]> ps).
Proof.
  intros H Hc j. specialize (H j).
  rewrite !lookup_insert. case_decide as E; [|done].
  subst j. rewrite Hc in H. simpl. split; [tauto|]. split; eauto.
Qed.

Lemma api_start_consistent i o s :
  calm (ReqStart i o) →
  consistent (cameras s) (ffmpegProcesses s) →
  consistent (cameras (api_start i o s).1) (ffmpegProcesses (api_start i o s).1).
Proof.
  intros Hcalm H. unfold api_start.
  destruct (cameras s !! i) as [camera|] eqn:Hc; [|done].
  case_decide; [done|].
  destruct o; simpl in *; try done; by apply consistent_live.
Qed.

Lemma api_stop_consistent i s :
  consistent (cameras s) (ffmpegProcesses s) →
  consistent (cameras (api_stop i s).1) (ffmpegProcesses (api_stop i s).1).
Proof.
  intros H. unfold api_stop.
  destruct (cameras s !! i) as [camera|] eqn:Hc; [|done].
  case_decide; [|done].
  rewrite stopStream_cameras, Hc. simpl.
  rewrite stopStream_ffmpegProcesses.
  by apply consistent_offline.
Qed.

Lemma api_delete_consistent i s :
  consistent (cameras s) (ffmpegProcesses s) →
  consistent (cameras (api_delete i s).1) (ffmpegProcesses (api_delete i s).1).
Proof.
  intros H. unfold api_delete.
  destruct (cameras s !! i) as [camera|] eqn:Hc; [|done].
  simpl. case_decide as E.
  - rewrite stopStream_cameras, stopStream_ffmpegProcesses.
    by apply consistent_delete.
  - apply eq_None_not_Some in E.
    rewrite <- (delete_id (ffmpegProcesses s) i E) at 1.
    by apply consistent_delete.
Qed.

Lemma on_close_consistent i s :
  consistent (cameras s) (ffmpegProcesses s) →
  consistent (cameras (on_close i s)) (ffmpegProcesses (on_close i s)).
Proof.
  intros H. rewrite on_close_cameras, on_close_ffmpegProcesses.
  destruct (cameras s !! i) as [camera|] eqn:Hc.
  - by apply consistent_offline.
  - by apply consistent_delete_absent.
Qed.

Lemma step_consistent s e :
  calm e →
  consistent (cameras s) (ffmpegProcesses s) → env_ok s e →
  consistent (cameras (step s e)) (ffmpegProcesses (step s e)).
Proof.
  intros Hcalm H Hok. unfold step.
  destruct e; simpl in Hok |- *.
  - unfold api_create. case_match; [done|]. simpl.
    by apply consistent_create.
  - by apply api_delete_consistent.
  - by apply api_start_consistent.
  - by apply api_stop_consistent.
  - hook_of_child.
    by rewrite on_stdout_data_cameras, on_stdout_data_ffmpegProcesses.
  - by hook_of_child.
  - by hook_of_child.
  - hook_of_child. by apply on_close_consistent.
  - by rewrite wss_connection_cameras, wss_connection_ffmpegProcesses.
  - done.
  - by rewrite ws_closed_cameras, ws_closed_ffmpegProcesses.
  - done.
  - done.
Qed.

Lemma calm_run_consistent es s :
  Forall calm es → trace_ok s es →
  consistent (cameras s) (ffmpegProcesses s) →
  consistent (cameras (run es s)) (ffmpegProcesses (run es s)).
Proof.
  intros Hcalm. revert s. induction Hcalm as [|e es He Hes IH]; intros s Hok H.
  - done.
  - destruct Hok as [Hok1 Hok2]. simpl. apply IH; [done|].
    by apply step_consistent.
Qed.

Lemma reachable_run es s : reachable s → trace_ok s es → reachable (run es s).
Proof.
  revert s. induction es as [|e es IH]; intros s Hs Hok; [done|].
  destruct Hok as [He Hes]. simpl. apply IH; [|done].
  by apply reachable_step.
Qed.

(** ** Fan-out *)

Lemma ready_code_open r : Nat.eqb (ready_code r) 1 = true ↔ r = OPEN.
Proof. by destruct r. Qed.

Lemma send_if_open_lookup data ss a w :
  send_if_open data ss a !! w = deliver data [a] w <$> ss !! w.
Proof.
  destruct (decide (a = w)) as [->|Hne].
  - unfold send_if_open, deliver.
    destruct (ss !! w) as [c|] eqn:Hc; [|by rewrite Hc].
    destruct (Nat.eqb (ready_code (readyState c)) 1) eqn:E.
    + apply ready_code_open in E. unfold Ws.send.
      rewrite list_lookup_alter_eq, Hc. cbn [fmap option_fmap option_map].
      rewrite decide_True; [done|]. split; [apply list_elem_of_here|done].
    + rewrite Hc. cbn [fmap option_fmap option_map].
      rewrite decide_False; [done|].
      intros [_ Ho]. apply ready_code_open in Ho. congruence.
  - assert (send_if_open data ss a !! w = ss !! w) as ->.
    { unfold send_if_open. destruct (ss !! a); [|done].
      case_match; [|done]. unfold Ws.send. by rewrite list_lookup_alter_ne. }
    destruct (ss !! w); [|done]. simpl. unfold deliver.
    rewrite decide_False; [done|].
    intros [Hin _]. apply list_elem_of_singleton in Hin. congruence.
Qed.

Lemma broadcast_lookup data clients ss w :
  NoDup clients →
  foldl (send_if_open data) ss clients !! w = deliver data clients w <$> ss !! w.
Proof.
  intros Hnd. revert ss.
  induction Hnd as [|a l Ha Hnd IH]; intros ss; simpl.
  - destruct (ss !! w); [|done]. simpl. unfold deliver.
    rewrite decide_False; [done|]. intros [Hin _]. by apply elem_of_nil in Hin.
  - rewrite IH, send_if_open_lookup.
    destruct (ss !! w) as [c|]; [|done]. simpl. f_equal.
    unfold deliver. simpl.
    destruct (decide (w = a)) as [->|Hne].
    + destruct (decide (readyState c = OPEN)) as [Ho|Ho].
      * rewrite (decide_True (P := a ∈ [a] ∧ _));
          [|split; [apply list_elem_of_here|done]].
        rewrite decide_False; [|by intros [? _]].
        rewrite decide_True; [done|]. split; [apply list_elem_of_here|done].
      * rewrite (decide_False (P := a ∈ [a] ∧ _)); [|by intros [_ ?]].
        rewrite decide_False; [|by intros [? _]].
        rewrite decide_False; [done|]. by intros [_ ?].
    + rewrite (decide_False (P := w ∈ [a] ∧ _));
        [|by intros [Hin%list_elem_of_singleton _]].
      apply decide_ext. rewrite elem_of_cons. tauto.
Qed.

Lemma broadcast_length data clients ss :
  length (foldl (send_if_open data) ss clients) = length ss.
Proof.
  revert ss. induction clients as [|a l IH]; intros ss; [done|].
  simpl. rewrite IH. unfold send_if_open.
  destruct (ss !! a); [|done]. case_match; [|done].
  unfold Ws.send. by rewrite length_alter.
Qed.

(** ** Teardown *)

Lemma close_socket_not_open c : readyState (Ws.close_socket c) ≠ OPEN.
Proof. unfold Ws.close_socket. by destruct (readyState c) eqn:E; simpl; rewrite ?E. Qed.

Lemma close_socket_idemp c : Ws.close_socket (Ws.close_socket c) = Ws.close_socket c.
Proof. unfold Ws.close_socket. by destruct (readyState c) eqn:E; simpl; rewrite ?E. Qed.

Lemma close_all_lookup clients ss w :
  close_all clients ss !! w =
    (if decide (w ∈ clients) then Ws.close_socket else id) <$> ss !! w.
Proof.
  unfold close_all. revert ss.
  induction clients as [|a l IH]; intros ss; simpl.
  - by destruct (ss !! w).
  - rewrite IH. unfold Ws.close. rewrite list_lookup_alter.
    destruct (decide (a = w)) as [->|Hne].
    + rewrite (decide_True (P := w ∈ w :: l)) by apply list_elem_of_here.
      destruct (ss !! w) as [c|]; [|done]. simpl.
      case_decide; [|done]. by rewrite close_socket_idemp.
    + destruct (ss !! w) as [c|]; [|done]. simpl. f_equal.
      apply (f_equal (λ f : socket → socket, f c)).
      apply decide_ext. rewrite elem_of_cons.
      split; [by right|]. intros [E|Hin]; [by destruct Hne|done].
Qed.

Lemma close_clients_sockets cameraId s :
  sockets (close_clients cameraId s) = close_all (subscribers s cameraId) (sockets s).
Proof.
  unfold close_clients, subscribers.
  by destruct (streamClients s !! cameraId).
Qed.

Lemma stopStream_sockets cameraId s :
  sockets (stopStream cameraId s) = close_all (subscribers s cameraId) (sockets s).
Proof.
  unfold stopStream. rewrite close_clients_sockets.
  by destruct (ffmpegProcesses s !! cameraId).
Qed.

Lemma stopStream_children cameraId s p :
  ffmpegProcesses s !! cameraId = Some p →
  children (stopStream cameraId s) = kill p "SIGTERM" (children s).
Proof.
  intros Hp. unfold stopStream. rewrite close_clients_children. by rewrite Hp.
Qed.

(** After [stopStream] no member of the set is open. *)
Lemma stopStream_closes cameraId s w k :
  w ∈ subscribers s cameraId →
  sockets (stopStream cameraId s) !! w = Some k →
  readyState k ≠ OPEN.
Proof.
  intros Hw. rewrite stopStream_sockets, close_all_lookup.
  rewrite decide_True by done.
  destruct (sockets s !! w) as [c|]; [|done]. simpl.
  intros [= <-]. apply close_socket_not_open.
Qed.

Lemma set_status_same c v : cam_status c = v → set_status v c = c.
Proof. destruct c. simpl. by intros ->. Qed.

(** The ['close'] hook finds nothing to do for a camera that is [Offline]
    and has neither an entry nor a set. *)
Lemma on_close_settled cameraId s c :
  cameras s !! cameraId = Some c → cam_status c = Offline →
  ffmpegProcesses s !! cameraId = None →
  streamClients s !! cameraId = None →
  on_close cameraId s = s.
Proof.
  intros Hc Hst Hp Hcl. destruct s as [cs ps cl ch so]. simpl in *.
  unfold on_close, close_clients. simpl. rewrite Hc. simpl. rewrite Hcl.
  unfold with_cameras, with_ffmpegProcesses. simpl.
  rewrite (delete_id ps) by done.
  rewrite set_status_same by done.
  by rewrite insert_id.
Qed.

(** A successful start stores a new, empty set for the camera. *)
Lemma api_start_resets_subscribers (s : state) (i : string) (c : camera)
    (o : spawn_outcome) :
  cameras s !! i = Some c →
  ffmpegProcesses s !! i = None →
  (∀ message, o ≠ SpawnThrows message) →
  subscribers (api_start i o s).1 i = [].
Proof.
  intros Hc Hp Ho. unfold api_start, subscribers. rewrite Hc.
  rewrite decide_False by (rewrite Hp; by intros [? ?]).
  destruct o; simpl; try by rewrite lookup_insert_eq.
  by destruct (Ho message).
Qed.

(** ** How a connection changes *)

Lemma socket_evolves_refl c : socket_evolves c c.
Proof. by repeat split. Qed.

Lemma socket_evolves_trans c1 c2 c3 :
  socket_evolves c1 c2 → socket_evolves c2 c3 → socket_evolves c1 c3.
Proof.
  intros (Hc & Hp & Hn) (Hc' & Hp' & Hn'). split; [congruence|].
  split; [by etrans|]. intros H. destruct (Hn H) as [H2 Hi].
  destruct (Hn' H2) as [H3 Hi']. split; [done|congruence].
Qed.

Lemma close_socket_evolves c : socket_evolves c (Ws.close_socket c).
Proof.
  unfold Ws.close_socket, socket_evolves.
  destruct (readyState c) eqn:E; simpl; rewrite ?E; by repeat split.
Qed.

Lemma close_socket_closed c :
  readyState (Ws.close_socket c) = CLOSED → readyState c = CLOSED.
Proof. unfold Ws.close_socket. by destruct (readyState c) eqn:E; simpl; rewrite ?E. Qed.

Lemma deliver_evolves data clients w c :
  socket_evolves c (deliver data clients w c) ∧
  readyState (deliver data clients w c) = readyState c.
Proof.
  unfold deliver. case_decide as H; [|split; [apply socket_evolves_refl|done]].
  split; [|done]. split; [done|]. split; [by apply prefix_app_r|].
  simpl. by destruct H.
Qed.

(** A broadcast, whatever the list it runs over. *)
Lemma broadcast_evolves data clients ss w c :
  ss !! w = Some c →
  ∃ c', foldl (send_if_open data) ss clients !! w = Some c' ∧
        socket_evolves c c' ∧ readyState c' = readyState c.
Proof.
  revert ss c. induction clients as [|a l IH]; intros ss c Hc; simpl.
  - exists c. split; [done|]. split; [apply socket_evolves_refl|done].
  - destruct (deliver_evolves data [a] w c) as [He Hr].
    destruct (IH (send_if_open data ss a) (deliver data [a] w c))
      as (c' & Hc' & He' & Hr').
    { by rewrite send_if_open_lookup, Hc. }
    exists c'. split; [done|]. split; [by eapply socket_evolves_trans|congruence].
Qed.

Lemma close_all_evolves clients ss w c :
  ss !! w = Some c →
  ∃ c', close_all clients ss !! w = Some c' ∧ socket_evolves c c' ∧
        (readyState c' = CLOSED → readyState c = CLOSED).
Proof.
  intros Hc. rewrite close_all_lookup, Hc. simpl. case_decide.
  - exists (Ws.close_socket c). split; [done|].
    split; [apply close_socket_evolves|apply close_socket_closed].
  - exists c. split; [done|]. split; [apply socket_evolves_refl|done].
Qed.

(** ** The loop of the shutdown *)

Lemma stop_all_cameras l s : cameras (stop_all l s) = cameras s.
Proof.
  revert s. induction l as [|a l IH]; intros s; [done|].
  simpl. by rewrite IH, stopStream_cameras.
Qed.

Lemma stop_all_ffmpegProcesses l s i :
  ffmpegProcesses (stop_all l s) !! i =
    if decide (i ∈ l) then None else ffmpegProcesses s !! i.
Proof.
  revert s. induction l as [|a l IH]; intros s; simpl.
  - done.
  - rewrite IH, stopStream_ffmpegProcesses, lookup_delete.
    destruct (decide (i ∈ l)) as [Hl|Hl].
    + rewrite decide_True; [done|]. by right.
    + case_decide as E.
      * subst a. rewrite decide_True; [done|]. by left.
      * rewrite decide_False; [done|]. rewrite elem_of_cons.
        intros [Heq|Hin]; [by destruct E|done].
Qed.

Lemma stop_all_streamClients l s i :
  streamClients (stop_all l s) !! i =
    if decide (i ∈ l) then None else streamClients s !! i.
Proof.
  revert s. induction l as [|a l IH]; intros s; simpl.
  - done.
  - rewrite IH, stopStream_streamClients, lookup_delete.
    destruct (decide (i ∈ l)) as [Hl|Hl].
    + rewrite decide_True; [done|]. by right.
    + case_decide as E.
      * subst a. rewrite decide_True; [done|]. by left.
      * rewrite decide_False; [done|]. rewrite elem_of_cons.
        intros [Heq|Hin]; [by destruct E|done].
Qed.

Lemma stopStream_child a s p ch :
  children s !! p = Some ch →
  ∃ ch', children (stopStream a s) !! p = Some ch' ∧
         (∀ x, x ∈ proc_signals ch → x ∈ proc_signals ch').
Proof.
  intros Hch. destruct (ffmpegProcesses s !! a) as [q|] eqn:Hq.
  - rewrite (stopStream_children a s q Hq). unfold kill.
    rewrite list_lookup_alter. case_decide as E.
    + subst q. rewrite Hch. eexists. split; [done|]. simpl. intros x Hx.
      apply elem_of_app. by left.
    + by exists ch.
  - rewrite (stopStream_children_idle a s Hq). by exists ch.
Qed.

Lemma stop_all_keeps_signal l s p ch x :
  children s !! p = Some ch → x ∈ proc_signals ch →
  ∃ ch', children (stop_all l s) !! p = Some ch' ∧ x ∈ proc_signals ch'.
Proof.
  revert s ch. induction l as [|a l IH]; intros s ch Hch Hx; [by exists ch|].
  simpl. destruct (stopStream_child a s p ch Hch) as (ch1 & Hch1 & Hmono).
  apply (IH _ ch1); [done|by apply Hmono].
Qed.

Lemma stop_all_signalled l s i p ch :
  i ∈ l → ffmpegProcesses s !! i = Some p → children s !! p = Some ch →
  NoDup l →
  ∃ ch', children (stop_all l s) !! p = Some ch' ∧ "SIGTERM" ∈ proc_signals ch'.
Proof.
  revert s ch. induction l as [|a l IH]; intros s ch Hi Hp Hch Hnd.
  - by apply elem_of_nil in Hi.
  - apply NoDup_cons in Hnd as [Ha Hnd]. simpl.
    destruct (decide (i = a)) as [->|Hne].
    + apply (stop_all_keeps_signal l _ p (kill_child "SIGTERM" ch)).
      * rewrite (stopStream_children a s p Hp). unfold kill.
        by rewrite list_lookup_alter_eq, Hch.
      * simpl. apply elem_of_app. right. apply list_elem_of_here.
    + apply elem_of_cons in Hi as [?|Hi]; [done|].
      destruct (stopStream_child a s p ch Hch) as (ch1 & Hch1 & _).
      apply (IH _ ch1); [done| |done|done].
      by rewrite stopStream_ffmpegProcesses, lookup_delete_ne.
Qed.

Lemma stopStream_socket a s w c :
  sockets s !! w = Some c →
  ∃ c', sockets (stopStream a s) !! w = Some c' ∧
        (readyState c ≠ OPEN → readyState c' ≠ OPEN).
Proof.
  intros Hc. rewrite stopStream_sockets.
  destruct (close_all_evolves (subscribers s a) (sockets s) w c Hc)
    as (c' & Hc' & (_ & _ & Hn) & _).
  exists c'. split; [done|]. intros H. by apply Hn.
Qed.

Lemma stop_all_keeps_closed l s w c :
  sockets s !! w = Some c → readyState c ≠ OPEN →
  ∃ c', sockets (stop_all l s) !! w = Some c' ∧ readyState c' ≠ OPEN.
Proof.
  revert s c. induction l as [|a l IH]; intros s c Hc Hn; [by exists c|].
  simpl. destruct (stopStream_socket a s w c Hc) as (c1 & Hc1 & Hn1).
  apply (IH _ c1); [done|by apply Hn1].
Qed.

Lemma stop_all_closes l s i w c :
  i ∈ l → w ∈ subscribers s i → sockets s !! w = Some c →
  ∃ c', sockets (stop_all l s) !! w = Some c' ∧ readyState c' ≠ OPEN.
Proof.
  revert s c. induction l as [|a l IH]; intros s c Hi Hw Hc.
  - by apply elem_of_nil in Hi.
  - simpl. destruct (stopStream_socket a s w c Hc) as (c1 & Hc1 & _).
    destruct (decide (i = a)) as [->|Hne].
    + apply (stop_all_keeps_closed l _ w c1); [done|].
      by apply (stopStream_closes a s w c1).
    + apply elem_of_cons in Hi as [?|Hi]; [done|].
      apply (IH _ c1); [done| |done].
      unfold subscribers in *.
      by rewrite stopStream_streamClients, lookup_delete_ne.
Qed.

(** ** Subscriber sets *)

Section Sets.
Implicit Types (s : state) (m : gmap string (list wsid)).

Lemma add_NoDup w clients : NoDup clients → NoDup (Ws.add w clients).
Proof.
  intros Hnd. unfold Ws.add. case_decide as Hin; [done|].
  apply NoDup_app. split; [done|]. split; [|apply NoDup_singleton].
  intros x Hx Hw. apply list_elem_of_singleton in Hw. by subst x.
Qed.

Lemma delete_NoDup w clients : NoDup clients → NoDup (Ws.delete w clients).
Proof. intros Hnd. unfold Ws.delete. by apply NoDup_filter. Qed.

Lemma sets_ok_alter_add m i w : sets_ok m → sets_ok (alter (Ws.add w) i m).
Proof.
  intros H j l. rewrite lookup_alter. case_decide as E; [subst j|apply H].
  destruct (m !! i) as [l0|] eqn:Hi; simpl; [|done]. intros [= <-].
  apply add_NoDup. by apply (H i).
Qed.

Lemma close_clients_sets_ok i s :
  sets_ok (streamClients s) → sets_ok (streamClients (close_clients i s)).
Proof. rewrite close_clients_streamClients. apply map_Forall_delete. Qed.

Lemma wss_connection_sets_ok u s :
  sets_ok (streamClients s) → sets_ok (streamClients (wss_connection u s)).
Proof.
  intros H. unfold wss_connection. destruct u as [|o]; [done|].
  case_match; [done|]. simpl.
  apply sets_ok_alter_add.
  destruct (streamClients s !! default "" o); [done|]. simpl.
  apply map_Forall_insert_2; [constructor|done].
Qed.

Lemma ws_closed_sets_ok w s :
  sets_ok (streamClients s) → sets_ok (streamClients (ws_closed w s)).
Proof.
  intros H. unfold ws_closed. destruct (sockets s !! w) as [c|]; [|done].
  destruct (sock_camera c) as [i|]; [|done]. unfold ws_on_close. simpl.
  destruct (streamClients s !! i) as [l|] eqn:Hl; [|done]. simpl.
  apply map_Forall_insert_2; [|done]. apply delete_NoDup. by apply (H i).
Qed.

Lemma step_sets_ok s e :
  sets_ok (streamClients s) → sets_ok (streamClients (step s e)).
Proof.
  intros H. unfold step. destruct e; simpl.
  - unfold api_create. by case_match.
  - unfold api_delete. destruct (cameras s !! id); [|done]. simpl.
    case_decide; [|done]. rewrite stopStream_streamClients.
    by apply map_Forall_delete.
  - unfold api_start. destruct (cameras s !! id); [|done].
    case_decide; [done|]. destruct o; simpl; try done;
      (apply map_Forall_insert_2; [constructor|done]).
  - unfold api_stop. destruct (cameras s !! id) eqn:Hc; [|done].
    case_decide; [|done]. rewrite stopStream_cameras, Hc. simpl.
    rewrite stopStream_streamClients. by apply map_Forall_delete.
  - hook_of_child. unfold on_stdout_data. by case_match.
  - by hook_of_child.
  - by hook_of_child.
  - hook_of_child. unfold on_close.
    apply close_clients_sets_ok. simpl. by case_match.
  - by apply wss_connection_sets_ok.
  - done.
  - by apply ws_closed_sets_ok.
  - done.
  - intros i l. unfold shutdown_streams. rewrite stop_all_streamClients.
    case_decide; [done|]. apply H.
Qed.

(** The hypothesis of [broadcast_spec] holds of every store the server can
    be in. *)
Lemma reachable_sets_ok s i : reachable s → NoDup (subscribers s i).
Proof.
  intros Hs.
  assert (sets_ok (streamClients s)) as H.
  { induction Hs as [|s e _ IH _]; [apply map_Forall_empty|by apply step_sets_ok]. }
  unfold subscribers. destruct (streamClients s !! i) as [l|] eqn:Hl; simpl.
  - by apply (H i).
  - constructor.
Qed.

End Sets.

(** ** The claims *)

(** C1, on the code.  Camera A is created and started, and [spawn] returns
    a handle without stdio: [startStream] has stored the handle when
    [ffmpeg.stdout.on] raises, and the [catch] of the route answers
    StartFailure without removing it.  The process map has an entry for A
    while the status of A is OFFLINE; a second start answers AlreadyRunning. *)
Theorem failed_start_leaves_entry :
  let s := run start_without_stdio init in
  trace_ok init start_without_stdio ∧
  (handle (ReqStart "A" (SpawnNoStdio no_stdout))
     (run [ReqCreate (Some "Door") (Some "rtsp://x") "A" "t0"] init)).2
    = Some (StartFailure no_stdout) ∧
  ffmpegProcesses s !! "A" = Some 0 ∧
  cameras s !! "A" = Some (door Offline) ∧
  api_start "A" Spawned s = (s, AlreadyRunning).
Proof. by vm_compute. Qed.

(** C2, as the code has it.  Take a registered camera without an entry.
    When [spawn] raises, start answers StartFailure and leaves the whole
    store as it was: no entry is created and the record, its status
    included, is the one it was.  When [spawn] returns a handle [p] that has
    its stdio, so that the hooks are registered, and the failure comes
    through the ['error'] event of [p], start has answered success, stored
    [p] under the camera and set its status to LIVE; the ['error'] hook
    changes nothing; the entry goes and the status returns to OFFLINE when
    the ['close'] hook of [p] runs. *)
Theorem spawn_failure_spec (s : state) (i : string) (c : camera) :
  cameras s !! i = Some c →
  ffmpegProcesses s !! i = None →
  (∀ message, api_start i (SpawnThrows message) s = (s, StartFailure message)) ∧
  (let p := length (children s) in
   let s' := (api_start i SpawnErrorEvent s).1 in
   (api_start i SpawnErrorEvent s).2 =
     {| code := 200;
        json := JMessage "Stream started successfully" (Some (set_status Live c)) |} ∧
   ffmpegProcesses s' !! i = Some p ∧
   cameras s' !! i = Some (set_status Live c) ∧
   children s' !! p = Some (spawned_child i (cam_rtspUrl c) SpawnErrorEvent) ∧
   step s' (ProcError p) = s' ∧
   ffmpegProcesses (step s' (ProcClose p)) !! i = None ∧
   cameras (step s' (ProcClose p)) !! i = Some (set_status Offline c)).
Proof.
  intros Hc Hp.
  assert (¬ is_Some (ffmpegProcesses s !! i)) as Hno by (rewrite Hp; by intros [? ?]).
  split.
  - intros message. unfold api_start. rewrite Hc. by rewrite decide_False.
  - intros p s'.
    assert (api_start i SpawnErrorEvent s =
      (with_cameras (<[i := set_status Live c]> (cameras s))
         (with_streamClients (<[i := []]> (streamClients s))
           (with_ffmpegProcesses (<[i := p]> (ffmpegProcesses s))
             (with_children (children s ++
                [spawned_child i (cam_rtspUrl c) SpawnErrorEvent]) s))),
       {| code := 200;
          json := JMessage "Stream started successfully" (Some (set_status Live c)) |}))
      as Heq.
    { unfold api_start. rewrite Hc. by rewrite decide_False. }
    subst s'. rewrite Heq. simpl.
    split; [done|]. split; [by rewrite lookup_insert_eq|].
    split; [by rewrite lookup_insert_eq|].
    assert ((children s ++ [spawned_child i (cam_rtspUrl c) SpawnErrorEvent])%list !! p
              = Some (spawned_child i (cam_rtspUrl c) SpawnErrorEvent)) as Hch.
    { rewrite lookup_app_r by done. by rewrite Nat.sub_diag. }
    split; [done|].
    unfold step. simpl. unfold with_child. simpl. rewrite Hch. simpl.
    split; [done|].
    rewrite on_close_ffmpegProcesses, on_close_cameras. simpl.
    rewrite lookup_delete_eq, !lookup_insert_eq.
    split; [done|]. by destruct c.
Qed.

Lemma spawn_failure_spec_witness :
  let s := run [ReqCreate (Some "Door") (Some "rtsp://x") "A" "t0"] init in
  api_start "A" (SpawnThrows "spawn EPERM") s = (s, StartFailure "spawn EPERM") ∧
  ffmpegProcesses (api_start "A" SpawnErrorEvent s).1 !! "A" = Some 0.
Proof.
  intros s.
  destruct (spawn_failure_spec s "A" (door Offline)) as (Hthrow & _ & Hlate & _).
  - by vm_compute.
  - by vm_compute.
  - split; [apply Hthrow|exact Hlate].
Defined.

(** C2 as it is written fails when ffmpeg is not installed: [spawn] returns
    a handle, start answers success and the camera is LIVE with an entry. *)
Lemma spawn_failure_is_reported_counterexample : ¬ spawn_failure_is_reported.
Proof.
  intros H.
  destruct (H (run [ReqCreate (Some "Door") (Some "rtsp://x") "A" "t0"] init)
              "A" (door Offline) SpawnErrorEvent) as (_ & Hp & _).
  - apply (reachable_run _ init reachable_init). by vm_compute.
  - by vm_compute.
  - by vm_compute.
  - by unfold cannot_spawn.
  - vm_compute in Hp. discriminate.
Qed.

(** C3, as the code has it.  For a registered camera with an entry for
    process [p], stop sends SIGTERM to [p] and performs the teardown itself:
    it removes the entry, closes every member of the camera's subscriber
    set and removes the set, sets the status to OFFLINE, and answers with
    the updated record.  The ['close'] hook of the process performs the same
    teardown: run on the same store in place of stop, it leaves the
    registry, the process map, the subscriber sets and the connections that
    stop leaves, and it sends no signal; run on the store that stop leaves,
    it changes nothing. *)
Theorem stop_tears_down (s : state) (i : string) (c : camera) (p : pid) :
  cameras s !! i = Some c →
  ffmpegProcesses s !! i = Some p →
  let s' := (api_stop i s).1 in
  (api_stop i s).2 =
    {| code := 200;
       json := JMessage "Stream stopped successfully" (Some (set_status Offline c)) |} ∧
  children s' = kill p "SIGTERM" (children s) ∧
  ffmpegProcesses s' = delete i (ffmpegProcesses s) ∧
  cameras s' = <[i := set_status Offline c]> (cameras s) ∧
  streamClients s' = delete i (streamClients s) ∧
  sockets s' = close_all (subscribers s i) (sockets s) ∧
  on_close i s' = s' ∧
  cameras (on_close i s) = cameras s' ∧
  ffmpegProcesses (on_close i s) = ffmpegProcesses s' ∧
  streamClients (on_close i s) = streamClients s' ∧
  sockets (on_close i s) = sockets s' ∧
  children (on_close i s) = children s.
Proof.
  intros Hc Hp s'.
  assert (api_stop i s =
    (with_cameras (<[i := set_status Offline c]> (cameras s)) (stopStream i s),
     {| code := 200;
        json := JMessage "Stream stopped successfully" (Some (set_status Offline c)) |}))
    as Heq.
  { unfold api_stop. rewrite Hc. rewrite decide_True by eauto.
    by rewrite stopStream_cameras, Hc. }
  subst s'. rewrite Heq. simpl.
  rewrite stopStream_ffmpegProcesses, stopStream_streamClients,
    stopStream_sockets, (stopStream_children i s p Hp).
  repeat (split; [done|]).
  split; [|split; [|split; [|split; [|split]]]].
  - apply (on_close_settled i _ (set_status Offline c)); simpl.
    + by rewrite lookup_insert_eq.
    + done.
    + by rewrite stopStream_ffmpegProcesses, lookup_delete_eq.
    + by rewrite stopStream_streamClients, lookup_delete_eq.
  - by rewrite on_close_cameras, Hc.
  - apply on_close_ffmpegProcesses.
  - apply on_close_streamClients.
  - unfold on_close. rewrite close_clients_sockets. simpl. by rewrite Hc.
  - apply on_close_children.
Qed.

Lemma stop_tears_down_witness :
  let s := run live_with_viewer init in
  let s' := (api_stop "A" s).1 in
  (proc_signals <$> children s' !! 0) = Some ["SIGTERM"] ∧
  ffmpegProcesses s' = ∅ ∧
  cameras s' = {["A" := door Offline]} ∧
  streamClients s' = ∅ ∧
  (readyState <$> sockets s' !! 0) = Some CLOSING.
Proof.
  intros s s'.
  destruct (stop_tears_down s "A" (door Live) 0)
    as (_ & Hch & Hp & Hc & Hcl & Hso & _).
  - by vm_compute.
  - by vm_compute.
  - fold s' in Hch, Hp, Hc, Hcl, Hso.
    rewrite Hch, Hp, Hc, Hcl, Hso. by vm_compute.
Defined.

(** C3 as it is written fails on a live camera with one viewer: after stop
    the process map has lost the entry. *)
Lemma stop_only_signals_counterexample : ¬ stop_only_signals.
Proof.
  intros H.
  destruct (H (run live_with_viewer init) "A" (door Live) 0) as (_ & Hp & _).
  - by vm_compute.
  - by vm_compute.
  - apply (f_equal (λ m : gmap string nat, m !! "A")) in Hp.
    vm_compute in Hp. discriminate.
Qed.

(** C4, on the code.  A viewer connects to camera A while it is offline and
    is a member of its set; A is then started with success and the process
    emits two chunks.  The viewer is open, is no longer a member of the set
    and has received nothing. *)
Theorem start_drops_idle_subscriber :
  let s := run idle_with_viewer init in
  let s' := run [ReqStart "A" Spawned; ProcData 0 soi; ProcData 0 eoi] s in
  subscribers s "A" = [0] ∧
  code (api_start "A" Spawned s).2 = 200 ∧
  subscribers s' "A" = [] ∧
  sockets s' !! 0 = Some {| sock_camera := Some "A"; readyState := OPEN;
                            sock_inbox := [] |}.
Proof. by vm_compute. Qed.

(** C5, as the code has it.  For a registered camera, delete removes the
    record and answers success.  When the camera has an entry for process
    [p], [stopStream] runs first and the record is removed from the store it
    leaves: [p] has received SIGTERM, the entry is gone, the subscriber set
    is gone and none of its members is open.  When the camera has no entry,
    nothing but the record is touched: its subscriber set and the
    connections in it stay as they were. *)
Theorem delete_spec (s : state) (i : string) (c : camera) :
  cameras s !! i = Some c →
  let s' := (api_delete i s).1 in
  (api_delete i s).2 =
    {| code := 200; json := JMessage "Camera deleted successfully" None |} ∧
  cameras s' = delete i (cameras s) ∧
  (∀ p, ffmpegProcesses s !! i = Some p →
     s' = with_cameras (delete i (cameras (stopStream i s))) (stopStream i s) ∧
     children s' = kill p "SIGTERM" (children s) ∧
     ffmpegProcesses s' = delete i (ffmpegProcesses s) ∧
     streamClients s' = delete i (streamClients s) ∧
     ∀ w k, w ∈ subscribers s i → sockets s' !! w = Some k → readyState k ≠ OPEN) ∧
  (ffmpegProcesses s !! i = None →
     s' = with_cameras (delete i (cameras s)) s).
Proof.
  intros Hc s'. subst s'. unfold api_delete. rewrite Hc. simpl.
  split; [done|]. split; [|split].
  - case_decide; [|done]. by rewrite stopStream_cameras.
  - intros p Hp. rewrite decide_True by eauto. simpl.
    split; [done|]. split; [by apply stopStream_children|].
    split; [apply stopStream_ffmpegProcesses|].
    split; [apply stopStream_streamClients|].
    intros w k. apply stopStream_closes.
  - intros Hp. rewrite decide_False; [done|].
    rewrite Hp. by intros [? ?].
Qed.

Lemma delete_spec_witness :
  (let s := run live_with_viewer init in
   let s' := (api_delete "A" s).1 in
   (proc_signals <$> children s' !! 0) = Some ["SIGTERM"] ∧
   cameras s' = ∅ ∧ ffmpegProcesses s' = ∅ ∧ streamClients s' = ∅) ∧
  (let s := run idle_with_viewer init in
   (api_delete "A" s).1 = with_cameras ∅ s).
Proof.
  split.
  - intros s s'.
    destruct (delete_spec s "A" (door Live)) as (_ & Hc & Hlive & _);
      [by vm_compute|].
    destruct (Hlive 0) as (_ & Hch & Hp & Hcl & _); [by vm_compute|].
    fold s' in Hc, Hch, Hp, Hcl. rewrite Hc, Hch, Hp, Hcl. by vm_compute.
  - intros s.
    destruct (delete_spec s "A" (door Offline)) as (_ & _ & _ & Hidle);
      [by vm_compute|].
    rewrite Hidle by (by vm_compute). by vm_compute.
Defined.

(** C5 as it is written fails on an offline camera with a viewer waiting:
    the viewer is still a member of the set, and open, after the camera is
    deleted. *)
Lemma delete_closes_all_counterexample : ¬ delete_closes_all.
Proof.
  intros H.
  destruct (H (run idle_with_viewer init) "A" (door Offline) 0) as [Hin _].
  - by vm_compute.
  - vm_compute. apply list_elem_of_here.
  - apply Hin. vm_compute. apply list_elem_of_here.
Qed.

(** C6.  For a camera that already has an entry in the process map, start
    answers AlreadyRunning and leaves the whole store as it was: no second
    process is spawned, and the entry, the camera record and the subscriber
    sets are untouched. *)
Theorem start_already_running (s : state) (i : string) (c : camera) (p : pid)
    (o : spawn_outcome) :
  cameras s !! i = Some c →
  ffmpegProcesses s !! i = Some p →
  api_start i o s = (s, AlreadyRunning).
Proof.
  intros Hc Hp. unfold api_start. rewrite Hc.
  case_decide as E; [done|]. destruct E. by exists p.
Qed.

Lemma start_already_running_witness :
  let s := run [ReqCreate (Some "Door") (Some "rtsp://x") "A" "t0";
                ReqStart "A" Spawned] init in
  api_start "A" Spawned s = (s, AlreadyRunning).
Proof.
  apply (start_already_running _ "A" (door Live) 0 Spawned).
  - by vm_compute.
  - by vm_compute.
Defined.

(** C7.  For a registered camera without an entry in the process map, stop
    answers NotRunning and leaves the whole store as it was. *)
Theorem stop_not_running (s : state) (i : string) (c : camera) :
  cameras s !! i = Some c →
  ffmpegProcesses s !! i = None →
  api_stop i s = (s, NotRunning).
Proof.
  intros Hc Hp. unfold api_stop. rewrite Hc.
  case_decide as E; [|done]. rewrite Hp in E. by destruct E.
Qed.

Lemma stop_not_running_witness :
  let s := run [ReqCreate (Some "Door") (Some "rtsp://x") "A" "t0"] init in
  api_stop "A" s = (s, NotRunning).
Proof.
  apply (stop_not_running _ "A" (door Offline)).
  - by vm_compute.
  - by vm_compute.
Defined.




(** C9, as the code has it.  A broadcast of [data] for a camera appends
    [data] to the inbox of exactly the members of its set that are open;
    every other connection, a member that is not open included, is left as
    it was, so a connection that is skipped stops no delivery.  The set
    itself, like the three maps, is unchanged: a skipped connection stays
    a member. *)
Theorem broadcast_spec (s : state) (cameraId : string) (data : chunk) :
  NoDup (subscribers s cameraId) →
  let s' := on_stdout_data cameraId data s in
  (∀ w c, sockets s !! w = Some c →
     sockets s' !! w = Some (deliver data (subscribers s cameraId) w c)) ∧
  length (sockets s') = length (sockets s) ∧
  streamClients s' = streamClients s ∧
  cameras s' = cameras s ∧
  ffmpegProcesses s' = ffmpegProcesses s ∧
  children s' = children s.
Proof.
  intros Hnd s'. subst s'. unfold on_stdout_data, subscribers in *.
  destruct (streamClients s !! cameraId) as [clients|] eqn:E; simpl in *.
  - split; [|by rewrite broadcast_length].
    intros w c Hc. by rewrite broadcast_lookup, Hc.
  - split; [|done]. intros w c Hc. by rewrite Hc.
Qed.

Lemma broadcast_spec_witness :
  let s := run one_closing init in
  let s' := on_stdout_data "A" soi s in
  sockets s' !! 0 = Some {| sock_camera := Some "A"; readyState := CLOSING;
                            sock_inbox := [] |} ∧
  sockets s' !! 1 = Some {| sock_camera := Some "A"; readyState := OPEN;
                            sock_inbox := [soi] |} ∧
  streamClients s' = streamClients s.
Proof.
  intros s s'.
  assert (NoDup (subscribers s "A")) as Hnd.
  { apply (bool_decide_unpack _). by vm_compute. }
  destruct (broadcast_spec s "A" soi Hnd) as (Hsock & _ & Hset & _).
  split; [|split].
  - by apply (Hsock 0 {| sock_camera := Some "A"; readyState := CLOSING;
                         sock_inbox := [] |}).
  - by apply (Hsock 1 {| sock_camera := Some "A"; readyState := OPEN;
                         sock_inbox := [] |}).
  - exact Hset.
Defined.

(** C9 as it is written fails on [one_closing]: the closing viewer is
    skipped by the broadcast and is a member of the set after it as before. *)
Lemma broadcast_prunes_counterexample : ¬ broadcast_prunes.
Proof.
  intros H.
  apply (H (run one_closing init) "A" soi 0
           {| sock_camera := Some "A"; readyState := CLOSING; sock_inbox := [] |}).
  - vm_compute. apply list_elem_of_here.
  - by vm_compute.
  - done.
  - vm_compute. apply list_elem_of_here.
Qed.

(** C10.  For an identifier without a camera record, start and stop both
    answer NotFound and change nothing, whatever the process map [ps]
    holds: the registry is consulted before the process map. *)
Theorem not_found_first (s : state) (ps : gmap string pid) (i : string)
    (o : spawn_outcome) :
  cameras s !! i = None →
  api_start i o (with_ffmpegProcesses ps s) = (with_ffmpegProcesses ps s, NotFound) ∧
  api_stop i (with_ffmpegProcesses ps s) = (with_ffmpegProcesses ps s, NotFound).
Proof.
  intros Hc. unfold api_start, api_stop. simpl. by rewrite Hc.
Qed.

Lemma not_found_first_witness :
  api_start "A" Spawned (with_ffmpegProcesses {["A" := 7]} init)
    = (with_ffmpegProcesses {["A" := 7]} init, NotFound) ∧
  api_stop "A" (with_ffmpegProcesses {["A" := 7]} init)
    = (with_ffmpegProcesses {["A" := 7]} init, NotFound).
Proof.
  apply (not_found_first init {["A" := 7]} "A" Spawned).
  by vm_compute.
Defined.

(** ** Further properties of the code *)

(** *** The process map and the children *)

Section Processes.
Implicit Types (s : state) (i j : string) (p q : nat).

(** The entries survive a step that removes the entry of [i], touches no
    other camera and no child spawned for another camera. *)
Lemma entries_ok_remove s s' i :
  entries_ok s →
  ffmpegProcesses s' = delete i (ffmpegProcesses s) →
  (∀ j, j ≠ i → cameras s' !! j = cameras s !! j) →
  (∀ q ch, children s !! q = Some ch → proc_camera ch ≠ i →
           children s' !! q = Some ch) →
  entries_ok s'.
Proof.
  intros H Hps Hcs Hch j q Hq. rewrite Hps in Hq.
  apply lookup_delete_Some in Hq as [Hne Hq].
  destruct (H j q Hq) as (ch & c & Hq' & Hcam & Hsig & Hc & Hargs).
  exists ch, c. rewrite Hcs by done.
  split; [|done]. apply Hch; [done|]. by rewrite Hcam.
Qed.

(** The entries survive a step that leaves the process map, the children
    and the address of every camera that has an entry alone. *)
Lemma entries_ok_keep s s' :
  entries_ok s →
  ffmpegProcesses s' = ffmpegProcesses s →
  children s' = children s →
  (∀ j c, is_Some (ffmpegProcesses s !! j) → cameras s !! j = Some c →
          cameras s' !! j = Some c) →
  entries_ok s'.
Proof.
  intros H Hps Hch Hcs j q Hq. rewrite Hps in Hq.
  destruct (H j q Hq) as (ch & c & Hq' & Hcam & Hsig & Hc & Hargs).
  exists ch, c. rewrite Hch. split; [done|]. split; [done|]. split; [done|].
  split; [|done]. apply Hcs; [by exists q|done].
Qed.

Lemma kill_other s i p q ch :
  entries_ok s → ffmpegProcesses s !! i = Some p →
  children s !! q = Some ch → proc_camera ch ≠ i →
  kill p "SIGTERM" (children s) !! q = Some ch.
Proof.
  intros H Hp Hq Hne. unfold kill. rewrite list_lookup_alter_ne; [done|].
  intros ->. destruct (H i q Hp) as (ch' & _ & Hq' & Hcam & _).
  rewrite Hq in Hq'. by injection Hq' as ->.
Qed.

Lemma stopStream_entries_ok i s s' :
  entries_ok s →
  ffmpegProcesses s' = ffmpegProcesses (stopStream i s) →
  children s' = children (stopStream i s) →
  (∀ j, j ≠ i → cameras s' !! j = cameras s !! j) →
  entries_ok s'.
Proof.
  intros H Hps Hch Hcs. apply (entries_ok_remove s s' i); [done| |done|].
  - by rewrite Hps, stopStream_ffmpegProcesses.
  - intros q ch Hq Hne. rewrite Hch.
    destruct (ffmpegProcesses s !! i) as [p|] eqn:Hp.
    + rewrite (stopStream_children i s p Hp). by apply (kill_other s i).
    + by rewrite stopStream_children_idle.
Qed.

Lemma api_start_entries_ok i o s :
  entries_ok s → entries_ok (api_start i o s).1.
Proof.
  intros H. unfold api_start.
  destruct (cameras s !! i) as [camera|] eqn:Hc; [|done].
  case_decide as Hrun; [done|].
  assert (∀ cs' c', cs' !! i = Some c' → cam_rtspUrl c' = cam_rtspUrl camera →
            (∀ j, j ≠ i → cs' !! j = cameras s !! j) →
            entries_ok
    (with_cameras cs'
      (with_streamClients (<[i := []]> (streamClients s))
        (with_ffmpegProcesses (<[i := length (children s)]> (ffmpegProcesses s))
          (with_children (children s ++
            [spawned_child i (cam_rtspUrl camera) o]) s))))) as Hnew.
  { intros cs' c' Hc' Hurl Hcs j q Hq. simpl in *.
    rewrite lookup_insert in Hq. case_decide as E.
    - subst j. injection Hq as <-.
      exists (spawned_child i (cam_rtspUrl camera) o), c'.
      rewrite lookup_app_r by done. rewrite Nat.sub_diag. simpl.
      by rewrite Hurl.
    - destruct (H j q Hq) as (ch & c & Hq' & Hcam & Hsig & Hcj & Hargs).
      exists ch, c. rewrite lookup_app_l by (by eapply lookup_lt_Some).
      by rewrite Hcs. }
  assert (entries_ok
    (with_cameras (<[i := set_status Live camera]> (cameras s))
      (with_streamClients (<[i := []]> (streamClients s))
        (with_ffmpegProcesses (<[i := length (children s)]> (ffmpegProcesses s))
          (with_children (children s ++
            [spawned_child i (cam_rtspUrl camera) o]) s))))) as Hlive.
  { apply (Hnew _ (set_status Live camera)); [by rewrite lookup_insert_eq|done|].
    intros j Hj. by rewrite lookup_insert_ne. }
  destruct o; simpl; [apply Hlive|apply Hlive|done|].
  by apply (Hnew (cameras s) camera).
Qed.

(** The loop of the shutdown keeps the entries (it leaves none). *)
Lemma stop_all_entries_ok l s : entries_ok s → entries_ok (stop_all l s).
Proof.
  revert s. induction l as [|a l IH]; intros s H; [done|].
  simpl. apply IH. apply (stopStream_entries_ok a s); [done..|].
  intros j _. by rewrite stopStream_cameras.
Qed.

Lemma step_entries_ok s e :
  entries_ok s → env_ok s e → entries_ok (step s e).
Proof.
  intros H Hok. unfold step. destruct e; simpl in *.
  - unfold api_create. case_match; [done|]. simpl.
    apply (entries_ok_keep s); [done..|]. simpl.
    intros j c _ Hc. rewrite lookup_insert_ne; [done|]. congruence.
  - unfold api_delete. destruct (cameras s !! id) as [camera|] eqn:Hc; [|done].
    simpl. case_decide as Hrun.
    + apply (stopStream_entries_ok id s); [done..|].
      intros j Hne. simpl. by rewrite stopStream_cameras, lookup_delete_ne.
    + apply (entries_ok_remove s _ id); [done| | |done].
      * simpl. rewrite delete_id; [done|]. by apply eq_None_not_Some.
      * intros j Hne. simpl. by rewrite lookup_delete_ne.
  - by apply api_start_entries_ok.
  - unfold api_stop. destruct (cameras s !! id) as [camera|] eqn:Hc; [|done].
    case_decide as Hrun; [|done].
    rewrite stopStream_cameras, Hc. simpl.
    apply (stopStream_entries_ok id s); [done..|].
    intros j Hne. simpl. by rewrite lookup_insert_ne.
  - hook_of_child. apply (entries_ok_keep s); [done| | |].
    + apply on_stdout_data_ffmpegProcesses.
    + apply on_stdout_data_children.
    + intros j cam _. by rewrite on_stdout_data_cameras.
  - by hook_of_child.
  - by hook_of_child.
  - hook_of_child. apply (entries_ok_remove s _ (proc_camera ch)); [done| | |].
    + apply on_close_ffmpegProcesses.
    + intros j Hne. rewrite on_close_cameras.
      destruct (cameras s !! proc_camera ch); [|done]. by rewrite lookup_insert_ne.
    + intros q ch' Hq _. by rewrite on_close_children.
  - apply (entries_ok_keep s); [done| | |].
    + apply wss_connection_ffmpegProcesses.
    + apply wss_connection_children.
    + intros j c _. by rewrite wss_connection_cameras.
  - done.
  - apply (entries_ok_keep s); [done| | |].
    + apply ws_closed_ffmpegProcesses.
    + apply ws_closed_children.
    + intros j c _. by rewrite ws_closed_cameras.
  - done.
  - by apply stop_all_entries_ok.
Qed.

Lemma reachable_entries_ok s : reachable s → entries_ok s.
Proof.
  induction 1 as [|s e Hs IH Hok]; [by intros i p|].
  by apply step_entries_ok.
Qed.

End Processes.

(** What one event does to the child under handle [p]: nothing; or the
    stop or delete of the camera whose entry is [p] sends it SIGTERM; or a
    start allocates it. *)
Lemma stopStream_children_cases (i : string) (s : state) (p : nat) (ch' : child) :
  children (stopStream i s) !! p = Some ch' →
  children s !! p = Some ch' ∨
  ∃ ch, ffmpegProcesses s !! i = Some p ∧ children s !! p = Some ch ∧
        ch' = kill_child "SIGTERM" ch.
Proof.
  destruct (ffmpegProcesses s !! i) as [q|] eqn:Hq.
  - rewrite (stopStream_children i s q Hq). unfold kill.
    rewrite list_lookup_alter. case_decide as E; [subst q|by left].
    destruct (children s !! p) as [ch|] eqn:Hch; [|done].
    simpl. intros [= <-]. right. by exists ch.
  - rewrite (stopStream_children_idle i s Hq). by left.
Qed.

Lemma step_children (s : state) (e : event) (p : nat) (ch' : child) :
  children (step s e) !! p = Some ch' →
  children s !! p = Some ch' ∨
  (∃ i ch, (e = ReqStop i ∨ e = ReqDelete i) ∧
           ffmpegProcesses s !! i = Some p ∧ children s !! p = Some ch ∧
           ch' = kill_child "SIGTERM" ch) ∨
  (∃ i o, e = ReqStart i o ∧ p = length (children s) ∧
          proc_camera ch' = i ∧ proc_signals ch' = []) ∨
  e = Shutdown.
Proof.
  intros H. unfold step in H. destruct e; simpl in H.
  - left. revert H. unfold api_create. by case_match.
  - revert H. unfold api_delete. destruct (cameras s !! id); [|by left]. simpl.
    case_decide as Hrun; [|by left]. intros H.
    destruct (stopStream_children_cases id s p ch' H) as [?|(ch & ? & ? & ?)];
      [by left|].
    right; left. exists id, ch. eauto.
  - revert H. unfold api_start. destruct (cameras s !! id) as [camera|]; [|by left].
    case_decide as Hrun; [by left|].
    destruct o; simpl; [| |by left|];
      (intros H; destruct (decide (p < length (children s))) as [Hlt|Hge];
       [left; by rewrite lookup_app_l in H|];
       right; right; left; exists id; eexists; split; [done|];
       rewrite lookup_app_r in H by lia;
       destruct (p - length (children s)) as [|n] eqn:Hn; [|done];
       simpl in H; injection H as <-;
       split; [lia|done]).
  - revert H. unfold api_stop. destruct (cameras s !! id) eqn:Hc; [|by left].
    case_decide as Hrun; [|by left].
    rewrite stopStream_cameras, Hc. simpl. intros H.
    destruct (stopStream_children_cases id s p ch' H) as [?|(ch & ? & ? & ?)];
      [by left|].
    right; left. exists id, ch. eauto.
  - left. revert H. hook_of_child. by rewrite on_stdout_data_children.
  - left. revert H. by hook_of_child.
  - left. revert H. by hook_of_child.
  - left. revert H. hook_of_child. by rewrite on_close_children.
  - left. by rewrite wss_connection_children in H.
  - by left.
  - left. by rewrite ws_closed_children in H.
  - by left.
  - by right; right; right.
Qed.

Lemma stopStream_signals_ok (i : string) (s : state) :
  entries_ok s → signals_ok s → signals_ok (stopStream i s).
Proof.
  intros He Hs p ch' H.
  destruct (stopStream_children_cases i s p ch' H) as [Hsame|(ch & Hp & Hch & ->)].
  - by apply (Hs p).
  - destruct (He i p Hp) as (ch0 & _ & Hch0 & _ & Hsig & _).
    rewrite Hch in Hch0. injection Hch0 as <-.
    right. simpl. by rewrite Hsig.
Qed.

Lemma stop_all_signals_ok (l : list string) (s : state) :
  entries_ok s → signals_ok s → signals_ok (stop_all l s).
Proof.
  revert s. induction l as [|a l IH]; intros s He Hs; [done|].
  simpl. apply IH; [|by apply stopStream_signals_ok].
  apply (stopStream_entries_ok a s); [done..|].
  intros j _. by rewrite stopStream_cameras.
Qed.

Lemma step_signals_ok (s : state) (e : event) :
  entries_ok s → signals_ok s → signals_ok (step s e).
Proof.
  intros He Hs p ch' H.
  destruct (step_children s e p ch' H)
    as [Hsame|[(i & ch & _ & Hp & Hch & ->)|[(i & o & _ & _ & _ & Hsig)| -> ]]].
  - by apply (Hs p).
  - destruct (He i p Hp) as (ch0 & _ & Hch0 & _ & Hsig & _).
    rewrite Hch in Hch0. injection Hch0 as <-.
    right. simpl. by rewrite Hsig.
  - by left.
  - by apply (stop_all_signals_ok (map_to_list (ffmpegProcesses s)).*1 s He Hs p).
Qed.

Lemma reachable_signals_ok (s : state) : reachable s → signals_ok s.
Proof.
  induction 1 as [|s e Hs IH Hok]; [by intros p ch|].
  apply step_signals_ok; [by apply reachable_entries_ok|done].
Qed.




(** X4.  The server sends nothing but SIGTERM, and to each process at most
    once: in every store it can be in, a child has received no signal, or
    it has received exactly one SIGTERM and is no longer in the process
    map. *)
Theorem signalled_once (s : state) (p : nat) (ch : child) :
  reachable s →
  children s !! p = Some ch →
  proc_signals ch = [] ∨
  (proc_signals ch = ["SIGTERM"] ∧ ∀ i, ffmpegProcesses s !! i ≠ Some p).
Proof.
  intros Hs Hch.
  destruct (reachable_signals_ok s Hs p ch Hch) as [Hsig|Hsig]; [by left|].
  right. split; [done|]. intros i Hp.
  destruct (reachable_entries_ok s Hs i p Hp) as (ch' & _ & Hch' & _ & Hsig' & _).
  rewrite Hch in Hch'. injection Hch' as <-. by rewrite Hsig in Hsig'.
Qed.

Lemma signalled_once_witness :
  (proc_signals <$> children (run restart_before_close init) !! 0)
    = Some ["SIGTERM"] ∧
  (["SIGTERM"] = [] ∨
   (["SIGTERM"] = ["SIGTERM"] ∧
    ∀ i, ffmpegProcesses (run restart_before_close init) !! i ≠ Some 0)).
Proof.
  split; [by vm_compute|].
  apply (signalled_once (run restart_before_close init) 0
    {| proc_camera := "A"; proc_args := ffmpeg_args "rtsp://x";
       proc_signals := ["SIGTERM"]; proc_failed := false; proc_stdio := true |}).
  - apply (reachable_run _ init reachable_init). by vm_compute.
  - by vm_compute.
Defined.

(** *** The health route and the list route *)

Lemma live_cameras_dom (s : state) :
  consistent (cameras s) (ffmpegProcesses s) →
  dom (live_cameras s) = dom (ffmpegProcesses s).
Proof.
  intros H. apply set_eq. intros i. rewrite !elem_of_dom.
  unfold live_cameras. specialize (H i). split.
  - intros [c Hc]. apply map_lookup_filter_Some in Hc as [Hc Hl].
    rewrite Hc in H. by apply H.
  - intros Hp. destruct (cameras s !! i) as [c|] eqn:Hc.
    + exists c. apply map_lookup_filter_Some. split; [done|]. by apply H.
    + rewrite H in Hp. by destruct Hp.
Qed.

(** X1.  In every store the server can be in, every entry of the process
    map belongs to a camera of the registry, so the [activeStreams] count of
    the health route does not exceed its [cameras] count. *)
Theorem health_active_le_cameras (s : state) :
  reachable s →
  (∀ i, is_Some (ffmpegProcesses s !! i) → is_Some (cameras s !! i)) ∧
  (health_activeStreams (api_health s) ≤ health_cameras (api_health s))%nat.
Proof.
  intros Hs. pose proof (reachable_entries_ok s Hs) as H.
  assert (∀ i, is_Some (ffmpegProcesses s !! i) → is_Some (cameras s !! i)) as Hkeys.
  { intros i [p Hp]. destruct (H i p Hp) as (_ & c & _ & _ & _ & Hc & _). by exists c. }
  split; [done|]. simpl. rewrite <- !size_dom. apply subseteq_size.
  intros i. rewrite !elem_of_dom. apply Hkeys.
Qed.

Lemma health_active_le_cameras_witness :
  (∀ i, is_Some (ffmpegProcesses (run demo init) !! i) →
        is_Some (cameras (run demo init) !! i)) ∧
  (health_activeStreams (api_health (run demo init))
     ≤ health_cameras (api_health (run demo init)))%nat.
Proof.
  apply (health_active_le_cameras (run demo init)).
  apply (reachable_run _ init reachable_init). by vm_compute.
Defined.

(** X20.  Along every sequence of events that has neither a start whose
    [spawn] returns a handle without stdio nor a shutdown, every camera of
    the registry has status LIVE if and only if the process map has an entry
    for it, and the [activeStreams] count of the health route is the number
    of cameras whose status is LIVE. *)
Theorem calm_status_live_iff_entry (es : list event) :
  Forall calm es →
  trace_ok init es →
  (∀ i c, cameras (run es init) !! i = Some c →
          (cam_status c = Live ↔ is_Some (ffmpegProcesses (run es init) !! i))) ∧
  health_activeStreams (api_health (run es init)) = size (live_cameras (run es init)).
Proof.
  intros Hcalm Hok.
  pose proof (calm_run_consistent es init Hcalm Hok consistent_empty) as H.
  split.
  - intros i c Hc. specialize (H i). rewrite Hc in H. tauto.
  - simpl. by rewrite <- !size_dom, live_cameras_dom.
Qed.

Lemma calm_status_live_iff_entry_witness :
  (∀ i c, cameras (run demo init) !! i = Some c →
          (cam_status c = Live ↔ is_Some (ffmpegProcesses (run demo init) !! i))) ∧
  health_activeStreams (api_health (run demo init)) = size (live_cameras (run demo init)).
Proof.
  apply (calm_status_live_iff_entry demo).
  - unfold demo. by repeat constructor.
  - by vm_compute.
Defined.

(** X2.  The list route answers with one record per camera of the registry;
    after a create that is accepted under a new identifier, the list is, up
    to its order, the former list with the new record added. *)
Theorem list_after_create (s : state) (n u uuid now : string) :
  cameras s !! uuid = None → n ≠ "" → u ≠ "" →
  length (api_list s) = health_cameras (api_health s) ∧
  api_list (api_create (Some n) (Some u) uuid now s).1 ≡ₚ
    {| cam_id := uuid; cam_name := n; cam_rtspUrl := u; cam_status := Offline;
       cam_streamUrl := viewerPath uuid; cam_createdAt := now |} :: api_list s.
Proof.
  intros Hnew Hn Hu. split.
  - unfold api_list. by rewrite length_fmap, length_map_to_list.
  - unfold api_create, api_list. simpl.
    rewrite !bool_decide_eq_false_2 by done. simpl.
    by rewrite map_to_list_insert.
Qed.

Lemma list_after_create_witness :
  api_list (api_create (Some "Door") (Some "rtsp://x") "A" "t0" init).1 ≡ₚ
    [door Offline].
Proof.
  destruct (list_after_create init "Door" "rtsp://x" "A" "t0") as [_ H];
    [by vm_compute|done|done|].
  exact H.
Defined.

(** *** The connections *)

Section Connections.
Implicit Types (s : state) (c : socket) (w : nat) (i : string).

Lemma wss_connection_old o s w c :
  sockets s !! w = Some c → sockets (wss_connection o s) !! w = Some c.
Proof.
  intros Hc. pose proof (lookup_lt_Some _ _ _ Hc) as Hlt.
  unfold wss_connection. destruct o as [|o]; simpl; [by rewrite lookup_app_l|].
  case_match; simpl.
  - unfold Ws.close. rewrite list_lookup_alter_ne by lia.
    by rewrite lookup_app_l.
  - destruct (streamClients s !! default "" o); simpl;
      rewrite list_lookup_alter_ne by lia; by rewrite lookup_app_l.
Qed.

Lemma ws_closed_sockets w0 s :
  sockets (ws_closed w0 s) = alter (set_readyState CLOSED) w0 (sockets s).
Proof.
  unfold ws_closed. destruct (sockets s !! w0) as [c|] eqn:Hc.
  - destruct (sock_camera c); [|done]. unfold ws_on_close. simpl.
    by destruct (streamClients s !! s0).
  - apply list_eq. intros j. rewrite list_lookup_alter.
    case_decide as E; [|done]. subst j. by rewrite Hc.
Qed.

Lemma stop_all_socket (l : list string) s w c :
  sockets s !! w = Some c →
  ∃ c', sockets (stop_all l s) !! w = Some c' ∧ socket_evolves c c' ∧
        (readyState c' = CLOSED → readyState c = CLOSED ∨ Shutdown = WsClose w).
Proof.
  revert s c. induction l as [|a l IH]; intros s c Hc.
  - exists c. split; [done|]. split; [apply socket_evolves_refl|by left].
  - simpl.
    destruct (close_all_evolves (subscribers s a) (sockets s) w c Hc)
      as (c1 & Hc1 & He1 & Hr1).
    rewrite <- stopStream_sockets in Hc1.
    destruct (IH _ c1 Hc1) as (c' & Hc' & He' & Hr').
    exists c'. split; [done|].
    split; [by apply (socket_evolves_trans c c1 c')|].
    intros Hcl. destruct (Hr' Hcl) as [H1|H1]; [|done].
    left. by apply Hr1.
Qed.

(** What one event does to the connection under handle [w]. *)
Lemma step_socket s e w c :
  sockets s !! w = Some c →
  ∃ c', sockets (step s e) !! w = Some c' ∧ socket_evolves c c' ∧
        (readyState c' = CLOSED → readyState c = CLOSED ∨ e = WsClose w).
Proof.
  intros Hc.
  assert (∃ c', sockets s !! w = Some c' ∧ socket_evolves c c' ∧
            (readyState c' = CLOSED → readyState c = CLOSED ∨ e = WsClose w))
    as Hsame.
  { exists c. split; [done|]. split; [apply socket_evolves_refl|by left]. }
  assert (∀ l, ∃ c', close_all l (sockets s) !! w = Some c' ∧
            socket_evolves c c' ∧
            (readyState c' = CLOSED → readyState c = CLOSED ∨ e = WsClose w))
    as Hclose.
  { intros l. destruct (close_all_evolves l (sockets s) w c Hc) as (c' & ? & ? & ?).
    exists c'. eauto. }
  unfold step. destruct e; simpl.
  - unfold api_create. by case_match.
  - unfold api_delete. destruct (cameras s !! id); [|done]. simpl.
    case_decide; [|done]. rewrite stopStream_sockets. apply Hclose.
  - unfold api_start. destruct (cameras s !! id); [|done].
    case_decide; [done|]. by destruct o.
  - unfold api_stop. destruct (cameras s !! id) eqn:Hcam; [|done].
    case_decide; [|done]. rewrite stopStream_cameras, Hcam. simpl.
    rewrite stopStream_sockets. apply Hclose.
  - hook_of_child. unfold on_stdout_data.
    destruct (streamClients s !! proc_camera ch) as [clients|]; [|done]. simpl.
    destruct (broadcast_evolves data clients (sockets s) w c Hc) as (c' & ? & ? & Hr).
    exists c'. split; [done|]. split; [done|]. rewrite Hr. by left.
  - by hook_of_child.
  - by hook_of_child.
  - hook_of_child. unfold on_close. rewrite close_clients_sockets. simpl.
    destruct (cameras s !! proc_camera ch); apply Hclose.
  - exists c. split; [by apply wss_connection_old|].
    split; [apply socket_evolves_refl|by left].
  - unfold Ws.close. rewrite list_lookup_alter. case_decide as E; [subst w0|done].
    rewrite Hc. simpl. exists (Ws.close_socket c). split; [done|].
    split; [apply close_socket_evolves|].
    intros ?%close_socket_closed. by left.
  - rewrite ws_closed_sockets, list_lookup_alter. case_decide as E; [|done].
    subst w0. rewrite Hc. simpl. eexists. split; [done|].
    split; [|by right]. split; [done|]. split; [done|]. by intros ?.
  - done.
  - by apply stop_all_socket.
Qed.

End Connections.

(** X5.  Through any sequence of events a connection keeps its place and
    its hook, and its inbox only grows at the end; a connection that is not
    open never becomes open again and receives no further chunk. *)
Theorem connection_history (es : list event) (s : state) (w : nat) (c : socket) :
  sockets s !! w = Some c →
  ∃ c', sockets (run es s) !! w = Some c' ∧
        sock_camera c' = sock_camera c ∧
        sock_inbox c `prefix_of` sock_inbox c' ∧
        (readyState c ≠ OPEN →
           readyState c' ≠ OPEN ∧ sock_inbox c' = sock_inbox c).
Proof.
  revert s c. induction es as [|e es IH]; intros s c Hc; simpl.
  - exists c. by repeat split.
  - destruct (step_socket s e w c Hc) as (c1 & Hc1 & He1 & _).
    destruct (IH (step s e) c1 Hc1) as (c' & Hc' & He').
    exists c'. split; [done|].
    by apply (socket_evolves_trans c c1 c').
Qed.

Lemma connection_history_witness :
  ∃ c', sockets (run [ProcData 0 soi; ProcData 0 eoi] (run one_closing init)) !! 0
          = Some c' ∧
        readyState c' ≠ OPEN ∧ sock_inbox c' = [].
Proof.
  destruct (connection_history [ProcData 0 soi; ProcData 0 eoi]
              (run one_closing init) 0
              {| sock_camera := Some "A"; readyState := CLOSING; sock_inbox := [] |})
    as (c' & Hc' & _ & _ & Hn).
  - by vm_compute.
  - exists c'. split; [done|]. by apply Hn.
Defined.

(** *** Membership of the subscriber sets *)

Section Members.
Implicit Types (s : state) (w : nat) (i : string).

Lemma elem_of_add w w0 (l : list nat) : w ∈ Ws.add w0 l → w ∈ l ∨ w = w0.
Proof.
  unfold Ws.add. case_decide; [by left|].
  rewrite elem_of_app, list_elem_of_singleton. tauto.
Qed.

Lemma elem_of_delete w w0 (l : list nat) : w ∈ Ws.delete w0 l ↔ w ∈ l ∧ w ≠ w0.
Proof. unfold Ws.delete. rewrite list_elem_of_filter. tauto. Qed.

Lemma subscribers_delete s s' i j :
  streamClients s' = delete j (streamClients s) →
  ∀ w, w ∈ subscribers s' i → w ∈ subscribers s i.
Proof.
  intros Heq w. unfold subscribers. rewrite Heq, lookup_delete.
  case_decide; [|done]. simpl. by intros ?%elem_of_nil.
Qed.

Lemma subscribers_reset s s' i j :
  streamClients s' = <[j := []]> (streamClients s) →
  ∀ w, w ∈ subscribers s' i → w ∈ subscribers s i.
Proof.
  intros Heq w. unfold subscribers. rewrite Heq, lookup_insert.
  case_decide; [|done]. simpl. by intros ?%elem_of_nil.
Qed.

(** The gateway accepts: the new connection joins the set of the camera. *)
Lemma wss_connection_accept s i :
  i ≠ "" → is_Some (cameras s !! i) →
  wss_connection (UrlParsed (Some i)) s =
    with_sockets (sockets s ++
        [{| sock_camera := Some i; readyState := OPEN; sock_inbox := [] |}])
      (with_streamClients
        (<[i := Ws.add (length (sockets s)) (subscribers s i)]> (streamClients s)) s).
Proof.
  intros Hi [c Hc]. unfold wss_connection, subscribers. simpl.
  rewrite bool_decide_eq_false_2 by done.
  rewrite bool_decide_eq_false_2 by (by rewrite Hc). simpl.
  destruct s as [cs ps cl ch so]. simpl in *.
  unfold with_sockets, with_streamClients. simpl.
  assert (alter (λ c0, {| sock_camera := Some i; readyState := readyState c0;
                          sock_inbox := sock_inbox c0 |}) (length so)
            (so ++ [{| sock_camera := None; readyState := OPEN; sock_inbox := [] |}])%list
          = (so ++ [{| sock_camera := Some i; readyState := OPEN; sock_inbox := [] |}])%list)
    as Halter.
  { apply list_eq. intros j. rewrite list_lookup_alter.
    case_decide as E.
    - subst j. rewrite !lookup_app_r by done. by rewrite Nat.sub_diag.
    - destruct (decide (j < length so)) as [Hlt|Hge].
      + by rewrite !lookup_app_l.
      + rewrite !lookup_app_r by lia.
        destruct (j - length so) as [|k] eqn:Hk; [lia|done]. }
  destruct (cl !! i) as [l|] eqn:Hl; simpl; rewrite Halter; f_equal.
  - apply map_eq. intros j. rewrite lookup_alter, lookup_insert.
    case_decide; [subst j; by rewrite Hl|done].
  - apply map_eq. intros j. rewrite lookup_alter, !lookup_insert.
    case_decide; [|done]. subst j. by rewrite decide_True.
Qed.

(** The gateway rejects: nothing changes but the heap, where the new
    connection is closing and has no hook. *)
Lemma wss_connection_reject s o :
  (o = None ∨ o = Some "" ∨ ∃ i, o = Some i ∧ cameras s !! i = None) →
  wss_connection (UrlParsed o) s =
    with_sockets (sockets s ++
        [{| sock_camera := None; readyState := CLOSING; sock_inbox := [] |}]) s.
Proof.
  intros Ho. unfold wss_connection.
  assert (falsy o || bool_decide (cameras s !! default "" o = None) = true) as ->.
  { destruct Ho as [-> | [-> | (i & -> & Hi)]]; simpl; [done|done|].
    rewrite (bool_decide_eq_true_2 _ Hi). apply orb_true_r. }
  simpl.
  assert (Ws.close (length (sockets s))
            (sockets s ++ [{| sock_camera := None; readyState := OPEN;
                              sock_inbox := [] |}])%list
          = (sockets s ++ [{| sock_camera := None; readyState := CLOSING;
                              sock_inbox := [] |}])%list) as ->; [|done].
  unfold Ws.close. apply list_eq. intros j.
  rewrite list_lookup_alter. case_decide as E.
  - subst j. rewrite !lookup_app_r by done. by rewrite Nat.sub_diag.
  - destruct (decide (j < length (sockets s))) as [Hlt|Hge].
    + by rewrite !lookup_app_l.
    + rewrite !lookup_app_r by lia.
      destruct (j - length (sockets s)) as [|k] eqn:Hk; [lia|done].
Qed.

Lemma wss_connection_cases s o :
  (o = None ∨ o = Some "" ∨ ∃ i, o = Some i ∧ cameras s !! i = None) ∨
  (∃ i, o = Some i ∧ i ≠ "" ∧ is_Some (cameras s !! i)).
Proof.
  destruct o as [i|]; [|by left; left].
  destruct (decide (i = "")) as [->|Hi]; [by left; right; left|].
  destruct (cameras s !! i) eqn:Hc.
  - right. exists i. eauto.
  - left. right. right. by exists i.
Qed.

(** The ['close'] event of [w0]: it leaves the set of the camera it was
    registered for, and no other set changes. *)
Lemma ws_closed_subscribers s w0 i w :
  w ∈ subscribers (ws_closed w0 s) i →
  w ∈ subscribers s i ∧
  (w = w0 → ∀ c, sockets s !! w0 = Some c → sock_camera c ≠ Some i).
Proof.
  unfold ws_closed. destruct (sockets s !! w0) as [c|] eqn:Hc; [|by split].
  destruct (sock_camera c) as [i0|] eqn:Hcam.
  - unfold ws_on_close, subscribers. simpl.
    destruct (streamClients s !! i0) as [l|] eqn:Hl; simpl.
    + rewrite lookup_insert. case_decide as E.
      * subst i0. rewrite Hl. simpl. intros [? ?]%elem_of_delete. by split.
      * intros Hw. split; [done|]. intros _ c' [= <-]. congruence.
    + intros Hw. split; [done|]. intros -> c' [= <-] Heq.
      rewrite Hcam in Heq. injection Heq as ->. rewrite Hl in Hw.
      by apply elem_of_nil in Hw.
  - simpl. intros Hw. split; [done|]. intros _ c' [= <-]. by rewrite Hcam.
Qed.

End Members.

(** A member of a set after one event was a member before it, unless the
    event is its own acceptance by the gateway. *)
Lemma step_members (s : state) (e : event) (i : string) (w : nat) :
  w ∈ subscribers (step s e) i →
  (w ∈ subscribers s i ∧
   (e = WsClose w → ∀ c, sockets s !! w = Some c → sock_camera c ≠ Some i)) ∨
  (e = WsConnect (UrlParsed (Some i)) ∧ w = length (sockets s) ∧
   sockets (step s e) !! w =
     Some {| sock_camera := Some i; readyState := OPEN; sock_inbox := [] |}).
Proof.
  assert (∀ s', streamClients s' = streamClients s →
            w ∈ subscribers s' i → w ∈ subscribers s i) as Hsame.
  { intros s' Heq. unfold subscribers. by rewrite Heq. }
  intros H. unfold step in H.
  destruct e; simpl in H;
    try match goal with
        | |- context [WsConnect _ = WsConnect _] => idtac
        | |- context [WsClose _ = WsClose _] => idtac
        | |- _ => left; split; [|done]
        end.
  - revert H. unfold api_create. by case_match.
  - revert H. unfold api_delete. destruct (cameras s !! id); [|done]. simpl.
    case_decide; [|done]. apply (subscribers_delete s _ i id).
    simpl. apply stopStream_streamClients.
  - revert H. unfold api_start. destruct (cameras s !! id); [|done].
    case_decide; [done|].
    destruct o; simpl; [| |done|]; by apply (subscribers_reset s _ i id).
  - revert H. unfold api_stop. destruct (cameras s !! id) eqn:Hc; [|done].
    case_decide; [|done]. rewrite stopStream_cameras, Hc. simpl.
    apply (subscribers_delete s _ i id). simpl. apply stopStream_streamClients.
  - revert H. hook_of_child. apply Hsame.
    unfold on_stdout_data. by case_match.
  - revert H. by hook_of_child.
  - revert H. by hook_of_child.
  - revert H. hook_of_child.
    apply (subscribers_delete s _ i (proc_camera ch)), on_close_streamClients.
  - destruct u as [|cameraId]; [by left|].
    destruct (wss_connection_cases s cameraId) as [Hrej|(i0 & -> & Hne & Hreg)].
    + left. split; [|done]. by rewrite (wss_connection_reject s _ Hrej) in H.
    + rewrite (wss_connection_accept s i0 Hne Hreg) in H.
      unfold subscribers in H. simpl in H. rewrite lookup_insert in H.
      case_decide as E; [|by left]. subst i0. simpl in H.
      apply elem_of_add in H as [H| ->]; [by left|].
      right. split; [done|]. split; [done|].
      change (step s (WsConnect (UrlParsed (Some i))))
        with (wss_connection (UrlParsed (Some i)) s).
      rewrite (wss_connection_accept s i Hne Hreg). simpl.
      rewrite lookup_app_r by done. by rewrite Nat.sub_diag.
  - done.
  - left. destruct (ws_closed_subscribers s w0 i w H) as [Hin Hcam].
    split; [done|]. intros [= ->]. by apply Hcam.
  - done.
  - revert H. unfold shutdown_streams, subscribers.
    rewrite stop_all_streamClients. case_decide; [|done].
    simpl. by intros ?%elem_of_nil.
Qed.

Lemma step_members_ok (s : state) (e : event) :
  members_ok s → members_ok (step s e).
Proof.
  intros H i w Hw.
  destruct (step_members s e i w Hw) as [[Hin Hclose]|(_ & _ & Hnew)].
  - destruct (H i w Hin) as (c & Hc & Hcam & Hst).
    destruct (step_socket s e w c Hc) as (c' & Hc' & (Hcam' & _) & Hclosed).
    exists c'. split; [done|]. split; [congruence|].
    intros Hcl. destruct (Hclosed Hcl) as [?|He]; [done|].
    by apply (Hclose He c).
  - eexists. split; [done|]. by split.
Qed.

Lemma reachable_members_ok (s : state) : reachable s → members_ok s.
Proof.
  induction 1 as [|s e Hs IH Hok]; [|by apply step_members_ok].
  intros i w Hw. by apply elem_of_nil in Hw.
Qed.

(** X6.  In every store the server can be in, a member of a camera's
    subscriber set is a connection that the gateway registered for that
    camera and whose ['close'] event has not been delivered; it is a member
    of no other camera's set. *)
Theorem one_set_per_connection (s : state) (i : string) (w : nat) :
  reachable s →
  w ∈ subscribers s i →
  (∃ c, sockets s !! w = Some c ∧ sock_camera c = Some i ∧ readyState c ≠ CLOSED) ∧
  (∀ j, w ∈ subscribers s j → j = i).
Proof.
  intros Hs Hw. pose proof (reachable_members_ok s Hs) as H.
  destruct (H i w Hw) as (c & Hc & Hcam & Hst).
  split; [by exists c|]. intros j Hj.
  destruct (H j w Hj) as (c' & Hc' & Hcam' & _). congruence.
Qed.

Lemma one_set_per_connection_witness :
  (∃ c, sockets (run demo init) !! 1 = Some c ∧ sock_camera c = Some "A" ∧
        readyState c ≠ CLOSED) ∧
  (∀ j, 1 ∈ subscribers (run demo init) j → j = "A").
Proof.
  apply (one_set_per_connection (run demo init) "A" 1).
  - apply (reachable_run _ init reachable_init). by vm_compute.
  - vm_compute. apply list_elem_of_here.
Defined.



(** X8.  When the ['close'] event of a connection is delivered, the
    connection leaves whatever subscriber set it was in; all other members
    of all sets stay, and the registry, the process map and the children
    are untouched. *)
Theorem close_event_unsubscribes (s : state) (w : nat) :
  reachable s →
  let s' := step s (WsClose w) in
  (∀ i w', w' ∈ subscribers s' i ↔ w' ∈ subscribers s i ∧ w' ≠ w) ∧
  cameras s' = cameras s ∧ ffmpegProcesses s' = ffmpegProcesses s ∧
  children s' = children s.
Proof.
  intros Hs s'. subst s'. unfold step. simpl.
  split; [|by rewrite ws_closed_cameras, ws_closed_ffmpegProcesses,
                      ws_closed_children].
  intros i w'. split.
  - intros H. destruct (ws_closed_subscribers s w i w' H) as [Hin Hcam].
    split; [done|]. intros ->.
    destruct (reachable_members_ok s Hs i w Hin) as (c & Hc & Hc' & _).
    by apply (Hcam eq_refl c).
  - intros [Hin Hne]. unfold ws_closed.
    destruct (sockets s !! w) as [c|]; [|done].
    destruct (sock_camera c) as [i0|]; [|done].
    unfold ws_on_close, subscribers in *. simpl.
    destruct (streamClients s !! i0) as [l|] eqn:Hl; [|done]. simpl.
    rewrite lookup_insert. case_decide as E; [|done]. subst i0.
    rewrite Hl in Hin. simpl in *. by apply elem_of_delete.
Qed.

Lemma close_event_unsubscribes_witness :
  subscribers (run live_with_viewer init) "A" = [0] ∧
  ((∀ i w', w' ∈ subscribers (step (run live_with_viewer init) (WsClose 0)) i ↔
            w' ∈ subscribers (run live_with_viewer init) i ∧ w' ≠ 0) ∧
   cameras (step (run live_with_viewer init) (WsClose 0))
     = cameras (run live_with_viewer init) ∧
   ffmpegProcesses (step (run live_with_viewer init) (WsClose 0))
     = ffmpegProcesses (run live_with_viewer init) ∧
   children (step (run live_with_viewer init) (WsClose 0))
     = children (run live_with_viewer init)).
Proof.
  split; [by vm_compute|].
  apply (close_event_unsubscribes (run live_with_viewer init) 0).
  apply (reachable_run _ init reachable_init). by vm_compute.
Defined.

(** *** Fan-out over time and across cameras *)

Lemma step_data (s : state) (p : nat) (ch : child) (data : chunk) :
  children s !! p = Some ch → proc_stdio ch = true →
  step s (ProcData p data) = on_stdout_data (proc_camera ch) data s.
Proof.
  intros Hch Hio. unfold step. simpl. unfold with_child. by rewrite Hch, Hio.
Qed.

(** A child without pipes has no hook: its events change nothing. *)
Lemma step_data_no_stdio (s : state) (p : nat) (ch : child) (data : chunk) :
  children s !! p = Some ch → proc_stdio ch = false →
  step s (ProcData p data) = s.
Proof.
  intros Hch Hio. unfold step. simpl. unfold with_child. by rewrite Hch, Hio.
Qed.

Lemma on_stdout_data_member (s : state) (i : string) (data : chunk) (w : nat)
    (c : socket) :
  NoDup (subscribers s i) → w ∈ subscribers s i →
  sockets s !! w = Some c → readyState c = OPEN →
  sockets (on_stdout_data i data s) !! w = Some (Ws.send_socket data c).
Proof.
  intros Hnd Hw Hc Ho. unfold on_stdout_data, subscribers in *.
  destruct (streamClients s !! i) as [clients|]; simpl in *;
    [|by apply elem_of_nil in Hw].
  rewrite broadcast_lookup, Hc by done. simpl. unfold deliver.
  by rewrite decide_True.
Qed.

(** X9.  The chunks that a process whose hooks were registered emits reach
    an open member of its camera's set in the order of their emission:
    after the chunks [datas], the inbox of the member is its former inbox
    followed by [datas]. *)
Theorem chunks_in_order (datas : list chunk) (s : state) (p : nat) (ch : child)
    (w : nat) (c : socket) :
  reachable s →
  children s !! p = Some ch →
  proc_stdio ch = true →
  w ∈ subscribers s (proc_camera ch) →
  sockets s !! w = Some c →
  readyState c = OPEN →
  sockets (run (ProcData p <$> datas) s) !! w =
    Some {| sock_camera := sock_camera c; readyState := OPEN;
            sock_inbox := sock_inbox c ++ datas |}.
Proof.
  revert s c. induction datas as [|d datas IH]; intros s c Hs Hch Hio Hw Hc Ho.
  - simpl. rewrite app_nil_r, Hc. destruct c. simpl in *. by subst.
  - change (run (ProcData p <$> d :: datas) s)
      with (run (ProcData p <$> datas) (step s (ProcData p d))).
    rewrite (IH (step s (ProcData p d)) (Ws.send_socket d c)).
    + simpl. by rewrite <- app_assoc.
    + by apply reachable_step.
    + rewrite (step_data s p ch d Hch Hio). by rewrite on_stdout_data_children.
    + done.
    + rewrite (step_data s p ch d Hch Hio). unfold subscribers.
      by rewrite on_stdout_data_streamClients.
    + rewrite (step_data s p ch d Hch Hio).
      apply on_stdout_data_member; [by apply reachable_sets_ok|done..].
    + done.
Qed.

Lemma chunks_in_order_witness :
  sockets (run (ProcData 0 <$> [soi; eoi; soi]) (run live_with_viewer init)) !! 0 =
    Some {| sock_camera := Some "A"; readyState := OPEN;
            sock_inbox := [soi; eoi; soi] |}.
Proof.
  apply (chunks_in_order [soi; eoi; soi] (run live_with_viewer init) 0
           {| proc_camera := "A"; proc_args := ffmpeg_args "rtsp://x";
              proc_signals := []; proc_failed := false; proc_stdio := true |} 0
           {| sock_camera := Some "A"; readyState := OPEN; sock_inbox := [] |}).
  - apply (reachable_run _ init reachable_init). by vm_compute.
  - by vm_compute.
  - done.
  - vm_compute. apply list_elem_of_here.
  - by vm_compute.
  - done.
Defined.

(** X10.  A chunk never crosses cameras: in every store the server can be
    in, the chunk of a process changes no connection but those the gateway
    registered for the camera of that process. *)
Theorem chunk_stays_in_camera (s : state) (p : nat) (ch : child) (data : chunk)
    (w : nat) (c : socket) :
  reachable s →
  children s !! p = Some ch →
  sockets s !! w = Some c →
  sock_camera c ≠ Some (proc_camera ch) →
  sockets (step s (ProcData p data)) !! w = Some c.
Proof.
  intros Hs Hch Hc Hne.
  destruct (proc_stdio ch) eqn:Hio;
    [|by rewrite (step_data_no_stdio s p ch data Hch Hio)].
  rewrite (step_data s p ch data Hch Hio).
  pose proof (reachable_sets_ok s (proc_camera ch) Hs) as Hnd.
  unfold on_stdout_data, subscribers in *.
  destruct (streamClients s !! proc_camera ch) as [clients|] eqn:Hl; [|done].
  simpl in *. rewrite broadcast_lookup, Hc by done. simpl.
  unfold deliver. rewrite decide_False; [done|]. intros [Hin _].
  destruct (reachable_members_ok s Hs (proc_camera ch) w) as (c' & Hc' & Hcam & _).
  { unfold subscribers. by rewrite Hl. }
  congruence.
Qed.

(** Cameras A and B are live, each with one viewer. *)
Lemma chunk_stays_in_camera_witness :
  let s := run [ReqCreate (Some "Door") (Some "rtsp://x") "A" "t0";
                ReqCreate (Some "Yard") (Some "rtsp://y") "B" "t1";
                ReqStart "A" Spawned; ReqStart "B" Spawned;
                WsConnect (UrlParsed (Some "A")); WsConnect (UrlParsed (Some "B"))] init in
  sockets (step s (ProcData 0 soi)) !! 1 =
    Some {| sock_camera := Some "B"; readyState := OPEN; sock_inbox := [] |}.
Proof.
  intros s.
  apply (chunk_stays_in_camera s 0
           {| proc_camera := "A"; proc_args := ffmpeg_args "rtsp://x";
              proc_signals := []; proc_failed := false; proc_stdio := true |}).
  - apply (reachable_run _ init reachable_init). by vm_compute.
  - by vm_compute.
  - by vm_compute.
  - done.
Defined.

(** *** Teardown by either path, and what comes after *)

(** X11.  A process that dies by itself is reconciled like one that is
    stopped: for a registered camera with an entry for [p], the ['close']
    hook and the stop route leave the same registry, process map,
    subscriber sets and connections.  They differ on [p] alone, which only
    stop signals. *)
Theorem crash_like_stop (s : state) (i : string) (c : camera) (p : nat) :
  cameras s !! i = Some c →
  ffmpegProcesses s !! i = Some p →
  cameras (on_close i s) = cameras (api_stop i s).1 ∧
  ffmpegProcesses (on_close i s) = ffmpegProcesses (api_stop i s).1 ∧
  streamClients (on_close i s) = streamClients (api_stop i s).1 ∧
  sockets (on_close i s) = sockets (api_stop i s).1 ∧
  children (on_close i s) = children s ∧
  children (api_stop i s).1 = kill p "SIGTERM" (children s).
Proof.
  intros Hc Hp.
  assert ((api_stop i s).1 =
    with_cameras (<[i := set_status Offline c]> (cameras s)) (stopStream i s))
    as ->.
  { unfold api_stop. rewrite Hc. rewrite decide_True by eauto.
    by rewrite stopStream_cameras, Hc. }
  simpl. rewrite on_close_cameras, Hc, on_close_ffmpegProcesses,
    on_close_streamClients, on_close_children, stopStream_ffmpegProcesses,
    stopStream_streamClients, stopStream_sockets, (stopStream_children i s p Hp).
  repeat (split; [done|]). split; [|done].
  unfold on_close. rewrite close_clients_sockets. simpl.
  by rewrite Hc.
Qed.

Lemma crash_like_stop_witness :
  let s := run live_with_viewer init in
  cameras (on_close "A" s) = cameras (api_stop "A" s).1 ∧
  sockets (on_close "A" s) = sockets (api_stop "A" s).1.
Proof.
  intros s.
  destruct (crash_like_stop s "A" (door Live) 0) as (H1 & _ & _ & H2 & _);
    [by vm_compute|by vm_compute|].
  by split.
Defined.

(** X12.  The ['close'] hook of a process whose hooks were registered
    removes the entry of its camera whichever process the entry names.
    When the entry names another process [q]
    (the camera was stopped and started again before the ['close'] of the
    old process [p] came), the registry turns to OFFLINE and the entry goes,
    while [q] has been sent nothing; stop then answers NotRunning, so [q]
    is out of reach of the routes. *)
Theorem late_close_drops_new_entry (s : state) (p q : nat) (ch : child)
    (c : camera) :
  children s !! p = Some ch →
  proc_stdio ch = true →
  cameras s !! proc_camera ch = Some c →
  ffmpegProcesses s !! proc_camera ch = Some q →
  q ≠ p →
  let s' := step s (ProcClose p) in
  ffmpegProcesses s' !! proc_camera ch = None ∧
  cameras s' !! proc_camera ch = Some (set_status Offline c) ∧
  children s' = children s ∧
  api_stop (proc_camera ch) s' = (s', NotRunning).
Proof.
  intros Hch Hio Hc Hq Hne s'. subst s'. unfold step. simpl.
  unfold with_child. rewrite Hch, Hio.
  assert (ffmpegProcesses (on_close (proc_camera ch) s) !! proc_camera ch = None)
    as Hgone by (by rewrite on_close_ffmpegProcesses, lookup_delete_eq).
  assert (cameras (on_close (proc_camera ch) s) !! proc_camera ch
            = Some (set_status Offline c)) as Hoff
    by (by rewrite on_close_cameras, Hc, lookup_insert_eq).
  split; [done|]. split; [done|]. split; [apply on_close_children|].
  unfold api_stop. rewrite Hoff. rewrite decide_False; [done|].
  rewrite Hgone. by intros [? ?].
Qed.

Lemma late_close_drops_new_entry_witness :
  let s := run restart_before_close init in
  ffmpegProcesses s !! "A" = Some 1 ∧
  ffmpegProcesses (step s (ProcClose 0)) !! "A" = None ∧
  (proc_signals <$> children (step s (ProcClose 0)) !! 1) = Some [] ∧
  api_stop "A" (step s (ProcClose 0)) = (step s (ProcClose 0), NotRunning).
Proof.
  intros s.
  destruct (late_close_drops_new_entry s 0 1
    {| proc_camera := "A"; proc_args := ffmpeg_args "rtsp://x";
       proc_signals := ["SIGTERM"]; proc_failed := false; proc_stdio := true |}
    (door Live))
    as (Hgone & _ & Hch & Hstop);
    [by vm_compute|done|by vm_compute|by vm_compute|done|].
  split; [by vm_compute|]. split; [exact Hgone|].
  split; [|exact Hstop]. rewrite Hch. by vm_compute.
Defined.

(** X13.  Deleting a camera right after its creation gives the store back:
    from a store the server can be in, an accepted create under a new
    identifier followed by the delete of that identifier leaves the whole
    store as it was. *)
Theorem create_then_delete (s : state) (n u uuid now : string) :
  reachable s →
  cameras s !! uuid = None → n ≠ "" → u ≠ "" →
  (api_delete uuid (api_create (Some n) (Some u) uuid now s).1).1 = s.
Proof.
  intros Hs Hnew Hn Hu.
  assert (ffmpegProcesses s !! uuid = None) as Hp.
  { destruct (ffmpegProcesses s !! uuid) as [p|] eqn:Hp; [|done].
    destruct (reachable_entries_ok s Hs uuid p Hp) as (_ & c & _ & _ & _ & Hc & _).
    congruence. }
  unfold api_create. simpl. rewrite !bool_decide_eq_false_2 by done. simpl.
  unfold api_delete. simpl. rewrite lookup_insert_eq. simpl.
  rewrite decide_False by (rewrite Hp; by intros [? ?]).
  destruct s as [cs ps cl ch so]. unfold with_cameras. simpl in *.
  by rewrite delete_insert_id.
Qed.

Lemma create_then_delete_witness :
  (api_delete "B" (api_create (Some "Yard") (Some "rtsp://y") "B" "t1"
                     (run live_with_viewer init)).1).1
    = run live_with_viewer init.
Proof.
  apply (create_then_delete (run live_with_viewer init)).
  - apply (reachable_run _ init reachable_init). by vm_compute.
  - by vm_compute.
  - done.
  - done.
Defined.

(** X14.  Stop after start.  In any store, starting a registered camera
    that has no entry (with a [spawn] that succeeds) and stopping it leaves
    the registry as it was but for the status of the camera, which is
    OFFLINE, so a camera that was OFFLINE gets its record back; the process
    map is as it was; the new child has received SIGTERM; no connection is
    touched, and the camera is left without a subscriber set. *)
Theorem start_then_stop (s : state) (i : string) (c : camera) :
  cameras s !! i = Some c →
  ffmpegProcesses s !! i = None →
  let s' := (api_stop i (api_start i Spawned s).1).1 in
  cameras s' = <[i := set_status Offline c]> (cameras s) ∧
  (cam_status c = Offline → cameras s' = cameras s) ∧
  ffmpegProcesses s' = ffmpegProcesses s ∧
  children s' = (children s ++
    [kill_child "SIGTERM" (spawned_child i (cam_rtspUrl c) Spawned)])%list ∧
  sockets s' = sockets s ∧
  streamClients s' = delete i (streamClients s).
Proof.
  intros Hc Hp s'.
  assert ((api_start i Spawned s).1 =
    with_cameras (<[i := set_status Live c]> (cameras s))
      (with_streamClients (<[i := []]> (streamClients s))
        (with_ffmpegProcesses (<[i := length (children s)]> (ffmpegProcesses s))
          (with_children (children s ++
             [spawned_child i (cam_rtspUrl c) Spawned]) s)))) as Hstart.
  { unfold api_start. rewrite Hc.
    by rewrite decide_False by (rewrite Hp; by intros [? ?]). }
  subst s'. rewrite Hstart. unfold api_stop. simpl.
  rewrite lookup_insert_eq.
  rewrite decide_True by (rewrite lookup_insert_eq; eauto).
  rewrite stopStream_cameras. simpl. rewrite lookup_insert_eq. simpl.
  rewrite stopStream_ffmpegProcesses, stopStream_streamClients,
    stopStream_sockets. simpl.
  rewrite (stopStream_children i _ (length (children s)))
    by (simpl; by rewrite lookup_insert_eq).
  simpl. unfold subscribers. simpl. rewrite lookup_insert_eq. simpl.
  assert (<[i := set_status Offline (set_status Live c)]>
            (<[i := set_status Live c]> (cameras s))
          = <[i := set_status Offline c]> (cameras s)) as Hcs
    by (by rewrite insert_insert_eq).
  split; [done|]. split; [|split; [|split; [|split; [done|]]]].
  - intros Hoff. rewrite Hcs. rewrite insert_id; [done|].
    rewrite Hc. f_equal. destruct c. simpl in *. by subst.
  - by rewrite delete_insert_id.
  - unfold kill. apply list_eq. intros j. rewrite list_lookup_alter.
    case_decide as E.
    + subst j. rewrite !lookup_app_r by done. by rewrite Nat.sub_diag.
    + destruct (decide (j < length (children s))) as [Hlt|Hge].
      * by rewrite !lookup_app_l.
      * rewrite !lookup_app_r by lia.
        destruct (j - length (children s)) as [|k] eqn:Hk; [lia|done].
  - by rewrite delete_insert_eq.
Qed.

Lemma start_then_stop_witness :
  let s := run idle_with_viewer init in
  let s' := (api_stop "A" (api_start "A" Spawned s).1).1 in
  cameras s' = cameras s ∧ sockets s' = sockets s ∧ streamClients s' = ∅.
Proof.
  intros s s'.
  destruct (start_then_stop s "A" (door Offline)) as (_ & H1 & _ & _ & H2 & H3).
  - by vm_compute.
  - by vm_compute.
  - split; [by apply H1|]. split; [exact H2|].
    fold s' in H3. rewrite H3. by vm_compute.
Defined.

(** *** The records of the registry *)

Lemma step_camera (s : state) (e : event) (i : string) (c c' : camera) :
  env_ok s e →
  cameras s !! i = Some c →
  cameras (step s e) !! i = Some c' →
  c' = set_status (cam_status c') c.
Proof.
  intros Hok Hc.
  assert (∀ m : gmap string camera, m = cameras s → m !! i = Some c' →
            c' = set_status (cam_status c') c) as Hsame.
  { intros m -> H. rewrite Hc in H. injection H as <-.
    symmetry. by apply set_status_same. }
  assert (∀ j v c0, cameras s !! j = Some c0 →
            <[j := set_status v c0]> (cameras s) !! i = Some c' →
            c' = set_status (cam_status c') c) as Hset.
  { intros j v c0 Hj. rewrite lookup_insert. case_decide as E.
    - subst j. rewrite Hc in Hj. injection Hj as <-. by intros [= <-].
    - by apply Hsame. }
  unfold step. destruct e; simpl in *.
  - unfold api_create. case_match; [by apply Hsame|]. simpl.
    rewrite lookup_insert_ne by congruence. by apply Hsame.
  - unfold api_delete. destruct (cameras s !! id) eqn:Hid; [|by apply Hsame].
    simpl. rewrite lookup_delete. case_decide; [done|].
    case_decide; [rewrite stopStream_cameras|]; by apply Hsame.
  - unfold api_start. destruct (cameras s !! id) as [c0|] eqn:Hid; [|by apply Hsame].
    case_decide; [by apply Hsame|].
    destruct o; simpl;
      [by apply (Hset id)|by apply (Hset id)|by apply Hsame|by apply Hsame].
  - unfold api_stop. destruct (cameras s !! id) as [c0|] eqn:Hid; [|by apply Hsame].
    case_decide; [|by apply Hsame].
    rewrite stopStream_cameras, Hid. simpl.
    by apply (Hset id).
  - unfold with_child. destruct (children s !! p) as [ch|]; [|by apply Hsame].
    destruct (proc_stdio ch); [|by apply Hsame].
    rewrite on_stdout_data_cameras. by apply Hsame.
  - unfold with_child. repeat case_match; by apply Hsame.
  - unfold with_child. repeat case_match; by apply Hsame.
  - unfold with_child. destruct (children s !! p) as [ch|]; [|by apply Hsame].
    destruct (proc_stdio ch); [|by apply Hsame].
    rewrite on_close_cameras.
    destruct (cameras s !! proc_camera ch) eqn:Hj; [|by apply Hsame].
    by apply (Hset (proc_camera ch)).
  - rewrite wss_connection_cameras. by apply Hsame.
  - by apply Hsame.
  - rewrite ws_closed_cameras. by apply Hsame.
  - by apply Hsame.
  - unfold shutdown_streams. rewrite stop_all_cameras. by apply Hsame.
Qed.

(** A record enters the registry through an accepted create only. *)
Lemma step_camera_new (s : state) (e : event) (i : string) (c' : camera) :
  cameras s !! i = None →
  cameras (step s e) !! i = Some c' →
  ∃ n u now, e = ReqCreate (Some n) (Some u) i now ∧ n ≠ "" ∧ u ≠ "" ∧
             c' = {| cam_id := i; cam_name := n; cam_rtspUrl := u;
                     cam_status := Offline; cam_streamUrl := viewerPath i;
                     cam_createdAt := now |}.
Proof.
  intros Hc.
  assert (∀ m : gmap string camera, m = cameras s → m !! i = Some c' → False)
    as Hsame by (intros m -> H; congruence).
  assert (∀ j v c0, cameras s !! j = Some c0 →
            <[j := set_status v c0]> (cameras s) !! i = Some c' → False) as Hset.
  { intros j v c0 Hj. rewrite lookup_insert_ne by congruence. by apply Hsame. }
  unfold step. destruct e; simpl in *.
  - unfold api_create.
    destruct name as [n|]; [|intros H; by destruct (Hsame _ eq_refl H)].
    destruct rtspUrl as [u|]; simpl;
      [|rewrite orb_true_r; intros H; by destruct (Hsame _ eq_refl H)].
    destruct (decide (n = "")) as [->|Hn];
      [intros H; by destruct (Hsame _ eq_refl H)|].
    destruct (decide (u = "")) as [->|Hu];
      [rewrite orb_true_r; intros H; by destruct (Hsame _ eq_refl H)|].
    rewrite !bool_decide_eq_false_2 by done. simpl.
    rewrite lookup_insert. case_decide as E;
      [|intros H; by destruct (Hsame _ eq_refl H)].
    subst uuid. intros [= <-]. by exists n, u, now.
  - unfold api_delete. destruct (cameras s !! id) eqn:Hid;
      [|intros H; by destruct (Hsame _ eq_refl H)].
    simpl. rewrite lookup_delete. case_decide as Hd; [done|].
    case_decide as Hr; [rewrite stopStream_cameras|];
      intros H; by destruct (Hsame _ eq_refl H).
  - unfold api_start. destruct (cameras s !! id) as [c0|] eqn:Hid;
      [|intros H; by destruct (Hsame _ eq_refl H)].
    case_decide as Hr; [intros H; by destruct (Hsame _ eq_refl H)|].
    destruct o; simpl; intros H;
      [by destruct (Hset id _ _ Hid H)|by destruct (Hset id _ _ Hid H)|
       by destruct (Hsame _ eq_refl H)|by destruct (Hsame _ eq_refl H)].
  - unfold api_stop. destruct (cameras s !! id) as [c0|] eqn:Hid;
      [|intros H; by destruct (Hsame _ eq_refl H)].
    case_decide as Hr; [|intros H; by destruct (Hsame _ eq_refl H)].
    rewrite stopStream_cameras, Hid. simpl.
    intros H. by destruct (Hset id _ _ Hid H).
  - unfold with_child.
    destruct (children s !! p) as [ch|]; [destruct (proc_stdio ch)|];
      [rewrite on_stdout_data_cameras| |];
      intros H; by destruct (Hsame _ eq_refl H).
  - unfold with_child.
    destruct (children s !! p) as [ch|]; [destruct (proc_stdio ch)|];
      intros H; by destruct (Hsame _ eq_refl H).
  - unfold with_child.
    destruct (children s !! p) as [ch|]; [destruct (proc_stdio ch)|];
      intros H; by destruct (Hsame _ eq_refl H).
  - unfold with_child. destruct (children s !! p) as [ch|];
      [|intros H; by destruct (Hsame _ eq_refl H)].
    destruct (proc_stdio ch); [|intros H; by destruct (Hsame _ eq_refl H)].
    rewrite on_close_cameras.
    destruct (cameras s !! proc_camera ch) eqn:Hj; intros H;
      [by destruct (Hset _ _ _ Hj H)|by destruct (Hsame _ eq_refl H)].
  - rewrite wss_connection_cameras. intros H. by destruct (Hsame _ eq_refl H).
  - intros H. by destruct (Hsame _ eq_refl H).
  - rewrite ws_closed_cameras. intros H. by destruct (Hsame _ eq_refl H).
  - intros H. by destruct (Hsame _ eq_refl H).
  - unfold shutdown_streams. rewrite stop_all_cameras.
    intros H. by destruct (Hsame _ eq_refl H).
Qed.

(** X15.  No event changes anything of a camera record but its status:
    whatever the store, a record that is in the registry before and after
    an event has the same identifier, name, address, viewer path and
    creation time. *)
Theorem only_status_changes (s : state) (e : event) (i : string) (c c' : camera) :
  env_ok s e →
  cameras s !! i = Some c →
  cameras (step s e) !! i = Some c' →
  c' = set_status (cam_status c') c.
Proof. apply step_camera. Qed.

Lemma only_status_changes_witness :
  door Live = set_status (cam_status (door Live)) (door Offline).
Proof.
  apply (only_status_changes
           (run [ReqCreate (Some "Door") (Some "rtsp://x") "A" "t0"] init)
           (ReqStart "A" Spawned) "A" (door Offline) (door Live)).
  - done.
  - by vm_compute.
  - by vm_compute.
Defined.

(** X16.  In every store the server can be in, a record is stored under its
    own identifier, its viewer path is [/live/] followed by that
    identifier, and neither its name nor its address is empty. *)
Theorem record_shape (s : state) (i : string) (c : camera) :
  reachable s →
  cameras s !! i = Some c →
  cam_id c = i ∧ cam_streamUrl c = viewerPath i ∧
  cam_name c ≠ "" ∧ cam_rtspUrl c ≠ "".
Proof.
  intros Hs. revert i c. induction Hs as [|s e Hs IH Hok]; intros i c' Hc'.
  - simpl in Hc'. by rewrite lookup_empty in Hc'.
  - destruct (cameras s !! i) as [c|] eqn:Hc.
    + rewrite (step_camera s e i c c' Hok Hc Hc'). simpl. by apply IH.
    + destruct (step_camera_new s e i c' Hc Hc') as (n & u & now & _ & Hn & Hu & ->).
      by simpl.
Qed.

Lemma record_shape_witness :
  cam_id (door Live) = "A" ∧ cam_streamUrl (door Live) = viewerPath "A" ∧
  cam_name (door Live) ≠ "" ∧ cam_rtspUrl (door Live) ≠ "".
Proof.
  apply (record_shape (run demo init) "A" (door Live)).
  - apply (reachable_run _ init reachable_init). by vm_compute.
  - by vm_compute.
Defined.

(** *** One camera at a time *)

Lemma stopStream_other_sockets (i : string) (s : state) (w : nat) (c : socket) :
  sockets s !! w = Some c → w ∉ subscribers s i →
  sockets (stopStream i s) !! w = Some c.
Proof.
  intros Hc Hw. rewrite stopStream_sockets, close_all_lookup.
  rewrite decide_False by done. by rewrite Hc.
Qed.

Lemma stopStream_other_children (i : string) (s : state) (q : nat) (ch : child) :
  children s !! q = Some ch → ffmpegProcesses s !! i ≠ Some q →
  children (stopStream i s) !! q = Some ch.
Proof.
  intros Hch Hq. destruct (ffmpegProcesses s !! i) as [p|] eqn:Hp.
  - rewrite (stopStream_children i s p Hp). unfold kill.
    rewrite list_lookup_alter_ne; [done|]. congruence.
  - by rewrite stopStream_children_idle.
Qed.

(** X17.  A start, a stop or a delete of camera [i] touches nothing of
    another camera: the record, the entry and the subscriber set of every
    other identifier stay as they were, and so do every connection outside
    the set of [i] and every child but the one stored under [i]. *)
Theorem other_cameras_untouched (s : state) (e : event) (i j : string) :
  (∃ o, e = ReqStart i o) ∨ e = ReqStop i ∨ e = ReqDelete i →
  j ≠ i →
  cameras (step s e) !! j = cameras s !! j ∧
  ffmpegProcesses (step s e) !! j = ffmpegProcesses s !! j ∧
  streamClients (step s e) !! j = streamClients s !! j ∧
  (∀ w c, sockets s !! w = Some c → w ∉ subscribers s i →
          sockets (step s e) !! w = Some c) ∧
  (∀ q ch, children s !! q = Some ch → ffmpegProcesses s !! i ≠ Some q →
           children (step s e) !! q = Some ch).
Proof.
  intros He Hne. unfold step.
  destruct He as [[o ->]|[->| ->]]; simpl.
  - unfold api_start. destruct (cameras s !! i) as [c0|]; [|done].
    case_decide as Hrun; [done|].
    destruct o; simpl; [| |done|];
      (rewrite ?lookup_insert_ne by done;
       repeat (split; [done|]);
       intros q ch Hch _; rewrite lookup_app_l; [done|];
       by eapply lookup_lt_Some).
  - unfold api_stop. destruct (cameras s !! i) as [c0|] eqn:Hc; [|done].
    case_decide as Hrun; [|done].
    rewrite stopStream_cameras, Hc. simpl.
    rewrite stopStream_ffmpegProcesses, stopStream_streamClients.
    rewrite lookup_insert_ne, !lookup_delete_ne by done.
    repeat (split; [done|]).
    split; [apply stopStream_other_sockets|apply stopStream_other_children].
  - unfold api_delete. destruct (cameras s !! i) as [c0|] eqn:Hc; [|done].
    simpl. case_decide as Hrun.
    + rewrite stopStream_cameras, stopStream_ffmpegProcesses,
        stopStream_streamClients.
      rewrite !lookup_delete_ne by done.
      repeat (split; [done|]).
      split; [apply stopStream_other_sockets|apply stopStream_other_children].
    + by rewrite lookup_delete_ne.
Qed.

Lemma other_cameras_untouched_witness :
  cameras (step (run demo init) (ReqDelete "A")) !! "B"
    = cameras (run demo init) !! "B" ∧
  streamClients (step (run demo init) (ReqStop "A")) !! "B"
    = streamClients (run demo init) !! "B".
Proof.
  split.
  - by destruct (other_cameras_untouched (run demo init) (ReqDelete "A") "A" "B")
      as [H _]; [right; right|done|].
  - by destruct (other_cameras_untouched (run demo init) (ReqStop "A") "A" "B")
      as (_ & _ & H & _); [right; left|done|].
Defined.

(** *** The shutdown *)

(** X18.  The shutdown stops every stream and resets no status.  From a
    store the server can be in, after the loop of [gracefulShutdown] the
    process map is empty; every process that had an entry has been sent
    SIGTERM, the subscriber set of its camera is gone and none of its
    members is open; the sets of the other cameras are as they were; and
    the registry is unchanged, so a camera that was LIVE is still LIVE. *)
Theorem shutdown_stops_all (s : state) :
  reachable s →
  let s' := shutdown_streams s in
  ffmpegProcesses s' = ∅ ∧
  cameras s' = cameras s ∧
  (∀ i p, ffmpegProcesses s !! i = Some p →
     (∃ ch, children s' !! p = Some ch ∧ "SIGTERM" ∈ proc_signals ch) ∧
     streamClients s' !! i = None ∧
     (∀ w, w ∈ subscribers s i →
           ∃ k, sockets s' !! w = Some k ∧ readyState k ≠ OPEN)) ∧
  (∀ i, ffmpegProcesses s !! i = None →
        streamClients s' !! i = streamClients s !! i).
Proof.
  intros Hs s'. subst s'. unfold shutdown_streams.
  assert (∀ i, i ∈ (map_to_list (ffmpegProcesses s)).*1 ↔
               is_Some (ffmpegProcesses s !! i)) as Hkeys.
  { intros i. rewrite list_elem_of_fmap. split.
    - intros ([j p] & -> & Hin). apply elem_of_map_to_list in Hin. by exists p.
    - intros [p Hp]. exists (i, p). split; [done|]. by apply elem_of_map_to_list. }
  split; [|split; [apply stop_all_cameras|split]].
  - apply map_empty. intros i. rewrite stop_all_ffmpegProcesses.
    case_decide as Hin; [done|]. apply eq_None_not_Some. by rewrite <- Hkeys.
  - intros i p Hp.
    assert (i ∈ (map_to_list (ffmpegProcesses s)).*1) as Hin
      by (apply Hkeys; by exists p).
    destruct (reachable_entries_ok s Hs i p Hp) as (ch & _ & Hch & _).
    split; [|split].
    + apply (stop_all_signalled _ s i p ch); [done..|].
      apply NoDup_fst_map_to_list.
    + rewrite stop_all_streamClients. by rewrite decide_True.
    + intros w Hw.
      destruct (reachable_members_ok s Hs i w Hw) as (c & Hc & _).
      by apply (stop_all_closes _ s i w c).
  - intros i Hp. rewrite stop_all_streamClients. rewrite decide_False; [done|].
    rewrite Hkeys, Hp. by intros [? ?].
Qed.

Lemma shutdown_stops_all_witness :
  let s := run live_with_viewer init in
  ffmpegProcesses (shutdown_streams s) = ∅ ∧
  cameras (shutdown_streams s) !! "A" = Some (door Live) ∧
  streamClients (shutdown_streams s) !! "A" = None.
Proof.
  intros s.
  destruct (shutdown_stops_all s) as (Hp & Hc & Hlive & _).
  - apply (reachable_run _ init reachable_init). by vm_compute.
  - split; [exact Hp|]. split; [rewrite Hc; by vm_compute|].
    destruct (Hlive "A" 0) as (_ & Hcl & _); [by vm_compute|exact Hcl].
Defined.

(** *** A termination that comes after a delete *)

Lemma on_close_absent (i : string) (s : state) :
  cameras s !! i = None → ffmpegProcesses s !! i = None →
  streamClients s !! i = None →
  on_close i s = s.
Proof.
  intros Hc Hp Hcl. destruct s as [cs ps cl ch so]. simpl in *.
  unfold on_close, close_clients. simpl. rewrite Hc. simpl. rewrite Hcl.
  unfold with_ffmpegProcesses. simpl. by rewrite delete_id.
Qed.

(** X19.  The termination of a process whose camera has been deleted is a
    no-op: from a store the server can be in, after the delete of a camera
    with an entry for [p], the ['close'] event of [p] changes nothing; in
    particular it does not bring the record back. *)
Theorem close_after_delete (s : state) (i : string) (c : camera) (p : nat) :
  reachable s →
  cameras s !! i = Some c →
  ffmpegProcesses s !! i = Some p →
  step (api_delete i s).1 (ProcClose p) = (api_delete i s).1.
Proof.
  intros Hs Hc Hp.
  destruct (reachable_entries_ok s Hs i p Hp) as (ch & _ & Hch & Hcam & _).
  assert ((api_delete i s).1 = with_cameras (delete i (cameras s)) (stopStream i s))
    as ->.
  { unfold api_delete. rewrite Hc. simpl. rewrite decide_True by eauto.
    by rewrite stopStream_cameras. }
  unfold step. simpl. unfold with_child. simpl.
  rewrite (stopStream_children i s p Hp). unfold kill.
  rewrite list_lookup_alter_eq, Hch. simpl. rewrite Hcam.
  destruct (proc_stdio ch); [|done].
  apply on_close_absent; simpl.
  - apply lookup_delete_eq.
  - by rewrite stopStream_ffmpegProcesses, lookup_delete_eq.
  - by rewrite stopStream_streamClients, lookup_delete_eq.
Qed.

Lemma close_after_delete_witness :
  let s := (api_delete "A" (run live_with_viewer init)).1 in
  step s (ProcClose 0) = s.
Proof.
  apply (close_after_delete (run live_with_viewer init) "A" (door Live) 0).
  - apply (reachable_run _ init reachable_init). by vm_compute.
  - by vm_compute.
  - by vm_compute.
Defined.
